(** * meta-solver: the generate / execute / repair pipeline

    A shallow embedding of [step_manager.py], [main_pipeline.py],
    [solution_assembler.py] and the parts of [ssh_manager.py] they call.

    The file system is a finite map from paths to texts.  Everything the
    program cannot decide by itself (the completion API, child processes,
    the SSH transport, I/O faults) is answered by an environment [Env]
    indexed by a logical clock, so a run is a deterministic function of
    the environment.  Every method of the pipeline is a computation in the
    monad [M], which threads the file system and the clock and collects the
    events of the call.  Log lines have no influence on control flow and
    are left out. *)

From Stdlib Require Import ZArith String Ascii List Bool Lia DecimalString DecimalNat.
From stdpp Require Import base gmap strings list.

Set Warnings "-register-all".
Open Scope string_scope.
Open Scope list_scope.

(** ** Text helpers (Python [str] operations used by the source) *)

Definition nl : string := String "010"%char "".
Definition dq : string := String "034"%char "".

(** [str(n)] for a non-negative integer. *)
Definition dec (n : nat) : string := NilEmpty.string_of_uint (Nat.to_uint n).

Fixpoint zeros (k : nat) : string :=
  match k with
  | O => ""
  | S k' => String "0"%char (zeros k')
  end.

(** The format spec [:03]: zero-padded to a width of three. *)
Definition pad3 (n : nat) : string :=
  let d := dec n in zeros (3 - String.length d) +:+ d.

(** Python truthiness of a [str]. *)
Definition truthy (s : string) : bool := negb (String.eqb s "").

(** Truthiness of an [Optional[str]]: [None] and the empty text are falsy. *)
Definition usable (o : option string) : bool :=
  match o with
  | Some s => truthy s
  | None => false
  end.

(** ASCII white space, as removed by [str.strip()]; the texts of the model
    are ASCII. *)
Definition is_space (c : ascii) : bool :=
  let n := nat_of_ascii c in
  (Nat.leb 9 n && Nat.leb n 13) || (Nat.leb 28 n && Nat.leb n 32).

Fixpoint lstrip (s : string) : string :=
  match s with
  | String c s' => if is_space c then lstrip s' else s
  | EmptyString => EmptyString
  end.

Definition strip (s : string) : string :=
  String.rev (lstrip (String.rev (lstrip s))).

(** [os.path.basename] and [os.path.join] on POSIX paths. *)
Fixpoint basename_go (acc s : string) : string :=
  match s with
  | EmptyString => acc
  | String c s' =>
      if Ascii.eqb c "/"%char then basename_go s' s' else basename_go acc s'
  end.

Definition basename (p : string) : string := basename_go p p.

Fixpoint ends_with_slash (s : string) : bool :=
  match s with
  | EmptyString => false
  | String c EmptyString => Ascii.eqb c "/"%char
  | String _ s' => ends_with_slash s'
  end.

Definition starts_with_slash (s : string) : bool :=
  match s with
  | String c _ => Ascii.eqb c "/"%char
  | EmptyString => false
  end.

Definition path_join (a b : string) : string :=
  if starts_with_slash b then b
  else if String.eqb a "" || ends_with_slash a then a +:+ b
  else a +:+ "/" +:+ b.

(** [os.path.dirname] on POSIX paths: the part up to the last slash,
    without its trailing slashes unless it consists of slashes only. *)
Fixpoint upto_last_slash (s : string) : option string :=
  match s with
  | EmptyString => None
  | String c s' =>
      match upto_last_slash s' with
      | Some head => Some (String c head)
      | None =>
          if Ascii.eqb c "/"%char then Some (String c EmptyString) else None
      end
  end.

Fixpoint all_slashes (s : string) : bool :=
  match s with
  | EmptyString => true
  | String c s' => Ascii.eqb c "/"%char && all_slashes s'
  end.

Fixpoint rstrip_slash (s : string) : string :=
  match s with
  | EmptyString => EmptyString
  | String c s' =>
      match rstrip_slash s' with
      | EmptyString =>
          if Ascii.eqb c "/"%char then EmptyString else String c EmptyString
      | rest => String c rest
      end
  end.

Definition dirname (p : string) : string :=
  match upto_last_slash p with
  | None => EmptyString
  | Some head => if all_slashes head then head else rstrip_slash head
  end.

(** [text.replace('\\', '/')]: every backslash becomes a slash. *)
Fixpoint backslashes_to_slashes (s : string) : string :=
  match s with
  | EmptyString => EmptyString
  | String c s' =>
      String (if Ascii.eqb c (ascii_of_nat 92) then "/"%char else c)
        (backslashes_to_slashes s')
  end.

(** [os.path.splitext(name)[0]] for a name without directory part: cut at
    the last dot, unless only dots come before it. *)
Fixpoint last_dot (s : string) : option nat :=
  match s with
  | EmptyString => None
  | String c s' =>
      match last_dot s' with
      | Some i => Some (S i)
      | None => if Ascii.eqb c "."%char then Some O else None
      end
  end.

Fixpoint all_dots (s : string) : bool :=
  match s with
  | EmptyString => true
  | String c s' => Ascii.eqb c "."%char && all_dots s'
  end.

Definition splitext_root (name : string) : string :=
  match last_dot name with
  | Some i =>
      let root := String.substring 0 i name in
      if all_dots root then name else root
  | None => name
  end.

(** [re.search(r'step_(\d+)\.py', name)] and its group 1, on ASCII text.
    The digits are the longest run: a shorter one is followed by a digit,
    never by the dot the pattern asks for. *)
Definition is_digit (c : ascii) : bool :=
  let n := nat_of_ascii c in Nat.leb 48 n && Nat.leb n 57.

Fixpoint take_digits (s : string) : string * string :=
  match s with
  | String c s' =>
      if is_digit c then
        let '(ds, rest) := take_digits s' in (String c ds, rest)
      else (EmptyString, s)
  | EmptyString => (EmptyString, EmptyString)
  end.

Fixpoint strip_prefix (p s : string) : option string :=
  match p, s with
  | EmptyString, _ => Some s
  | String a p', String b s' =>
      if Ascii.eqb a b then strip_prefix p' s' else None
  | String _ _, EmptyString => None
  end.

Definition match_step_here (s : string) : option string :=
  match strip_prefix "step_" s with
  | Some r =>
      let '(ds, rest) := take_digits r in
      match strip_prefix ".py" rest with
      | Some _ => if truthy ds then Some ds else None
      | None => None
      end
  | None => None
  end.

Fixpoint search_step_number (s : string) : option string :=
  match match_step_here s with
  | Some ds => Some ds
  | None =>
      match s with
      | String _ s' => search_step_number s'
      | EmptyString => None
      end
  end.

(** ** The syntax trees [ast.parse] returns

    Only the node classes the source inspects are kept apart; every other
    statement is [Other], which still carries its nested statement blocks
    because [ast.walk] descends into them.  Statements never occur below
    expressions, so expressions need no children beyond the fields read. *)

Inductive cmpop := Eq | NotEq | Lt | LtE | Gt | GtE | Is | IsNot | In_ | NotIn.

Inductive expr :=
| Name (id : string)
| Constant (value : string)
| Compare (left : expr) (ops : list cmpop) (comparators : list expr)
| OtherExpr.

Inductive stmt :=
| ClassDef (name : string) (body : list stmt)
| FunctionDef (name : string) (body : list stmt)
| If (test : expr) (body orelse : list stmt)
| Other (blocks : list stmt).

(** All statement nodes below (and including) a statement; [ast.walk]
    yields them breadth first, but the source only asks whether [any] of
    them is a guard, which does not depend on the order. *)
Fixpoint walk (s : stmt) : list stmt :=
  s :: match s with
       | ClassDef _ body => flat_map walk body
       | FunctionDef _ body => flat_map walk body
       | If _ body orelse => flat_map walk body ++ flat_map walk orelse
       | Other blocks => flat_map walk blocks
       end.

Definition walk_module (tree : list stmt) : list stmt := flat_map walk tree.

Definition is_eq_or_is (op : cmpop) : bool :=
  match op with
  | Eq | Is => true
  | _ => false
  end.

(** The generator expression of [add_main_block], lines 70-77. *)
Definition is_main_guard (node : stmt) : bool :=
  match node with
  | If (Compare (Name id) ops _) _ _ =>
      String.eqb id "__name__" && existsb is_eq_or_is ops
  | _ => false
  end.

Definition has_main (tree : list stmt) : bool :=
  existsb is_main_guard (walk_module tree).

(** The text appended by [add_main_block], lines 79-84. *)
Definition main_code (step_number : nat) : string :=
  nl +:+ nl +:+ "if __name__ == " +:+ dq +:+ "__main__" +:+ dq +:+ ":" +:+ nl
  +:+ "    step = Step" +:+ dec step_number +:+ "()" +:+ nl
  +:+ "    step.execute()" +:+ nl.

(** [for node in ast.iter_child_nodes(tree): if isinstance(node, ClassDef)]:
    the name of the first top-level class. *)
Fixpoint first_class (tree : list stmt) : option string :=
  match tree with
  | [] => None
  | ClassDef name _ :: _ => Some name
  | _ :: rest => first_class rest
  end.

Section Parser.

(** [ast.parse]: [None] stands for any exception it raises (the source
    handles [SyntaxError] and every other exception in the same way). *)
Variable ast_parse : string -> option (list stmt).

(** [StepManager.add_main_block], step_manager.py lines 67-93. *)
Definition add_main_block (step_code : string) (step_number : nat) : string :=
  match ast_parse step_code with
  | Some tree =>
      if negb (has_main tree) then step_code +:+ main_code step_number
      else step_code
  | None => step_code
  end.

(** [extract_class_name], step_manager.py lines 95-109 and
    solution_assembler.py lines 75-89 (the two are the same code). *)
Definition extract_class_name (step_code : string) : option string :=
  match ast_parse step_code with
  | Some tree => first_class tree
  | None => None
  end.

End Parser.

(** ** The shape of an appended [if] statement

    What is assumed of [ast.parse] for [add_main_block] is stated for
    blocks of text of one shape: the block starts on a fresh line after an
    empty one, with a header [if <operand> <operator> <operand>:] at
    column 0, and nothing but indented lines of plain characters follow
    it.  Operands are names or plain string literals.  [read_if_block]
    reads the test off such a block. *)

Definition is_ident_start (c : ascii) : bool :=
  let n := nat_of_ascii c in
  (Nat.leb 65 n && Nat.leb n 90) || (Nat.leb 97 n && Nat.leb n 122)
  || Nat.eqb n 95.

Definition is_ident_char (c : ascii) : bool := is_ident_start c || is_digit c.

(** A printable ASCII character that is no quote and no backslash. *)
Definition plain_char (c : ascii) : bool :=
  let n := nat_of_ascii c in
  Nat.leb 32 n && Nat.leb n 126
  && negb (Nat.eqb n 34) && negb (Nat.eqb n 39) && negb (Nat.eqb n 92).

Fixpoint take_while (f : ascii -> bool) (s : string) : string * string :=
  match s with
  | String c s' =>
      if f c then let '(taken, rest) := take_while f s' in (String c taken, rest)
      else (EmptyString, s)
  | EmptyString => (EmptyString, EmptyString)
  end.

(** [None], [True] and [False] are constants, not names. *)
Definition is_keyword_constant (id : string) : bool :=
  String.eqb id "None" || String.eqb id "True" || String.eqb id "False".

Definition read_operand (s : string) : option (expr * string) :=
  match s with
  | String c s' =>
      if Ascii.eqb c "034"%char then
        let '(value, rest) := take_while plain_char s' in
        match rest with
        | String c' rest' =>
            if Ascii.eqb c' "034"%char then Some (Constant value, rest')
            else None
        | EmptyString => None
        end
      else if is_ident_start c then
        let '(id, rest) := take_while is_ident_char s in
        if is_keyword_constant id then None else Some (Name id, rest)
      else None
  | EmptyString => None
  end.

Definition read_operator (s : string) : option (cmpop * string) :=
  match strip_prefix " == " s with
  | Some rest => Some (Eq, rest)
  | None =>
      match strip_prefix " != " s with
      | Some rest => Some (NotEq, rest)
      | None =>
          match strip_prefix " is " s with
          | Some rest => Some (Is, rest)
          | None => None
          end
      end
  end.

(** The test of a header line [if <operand> <operator> <operand>:]. *)
Definition read_if_header (line : string) : option expr :=
  match strip_prefix "if " line with
  | Some s1 =>
      match read_operand s1 with
      | Some (lhs, s2) =>
          match read_operator s2 with
          | Some (op, s3) =>
              match read_operand s3 with
              | Some (rhs, s4) =>
                  if String.eqb s4 ":" then Some (Compare lhs [op] [rhs])
                  else None
              | None => None
              end
          | None => None
          end
      | None => None
      end
  | None => None
  end.

(** A text up to its first line end, and what follows it. *)
Fixpoint take_line (s : string) : string * option string :=
  match s with
  | String c s' =>
      if Ascii.eqb c "010"%char then (EmptyString, Some s')
      else let '(line, rest) := take_line s' in (String c line, rest)
  | EmptyString => (EmptyString, None)
  end.

(** Lines that each start with a space, hold plain characters only and
    end with a line end. *)
Fixpoint indented_lines (at_start : bool) (s : string) : bool :=
  match s with
  | EmptyString => at_start
  | String c s' =>
      if at_start then Ascii.eqb c " "%char && indented_lines false s'
      else if Ascii.eqb c "010"%char then indented_lines true s'
      else plain_char c && indented_lines false s'
  end.

Definition read_if_block (block : string) : option expr :=
  match strip_prefix (nl +:+ nl) block with
  | Some s1 =>
      match take_line s1 with
      | (header, Some body) =>
          if negb (String.eqb body "") && indented_lines true body
          then read_if_header header
          else None
      | (_, None) => None
      end
  | None => None
  end.

(** The test of the guard [main_code] appends. *)
Definition guard_test : expr :=
  Compare (Name "__name__") [Eq] [Constant "__main__"].

Fixpoint all_plain (s : string) : bool :=
  match s with
  | EmptyString => true
  | String c s' => plain_char c && all_plain s'
  end.

(** The final segments of a text, the longest first. *)
Fixpoint suffixes (s : string) : list string :=
  s :: match s with
       | EmptyString => []
       | String _ s' => suffixes s'
       end.

(** Every block that can be read off the end of a text is a guard. *)
Definition reads_guard_only (text : string) : bool :=
  forallb (fun suffix =>
             match read_if_block suffix with
             | Some (Compare (Name id) [Eq] [Constant value]) =>
                 String.eqb id "__name__" && String.eqb value "__main__"
             | Some _ => false
             | None => true
             end) (suffixes text).

(** No block can be read off the end of a text. *)
Definition reads_no_block (text : string) : bool :=
  forallb (fun suffix =>
             match read_if_block suffix with
             | Some _ => false
             | None => true
             end) (suffixes text).

(** ** Configuration (config.py) *)

(** One entry of [remote_servers], as [validate_config] accepts it. *)
Record Server := {
  hostname : string;
  port : Z;
  username : string;
  password : option string;
  ssh_key_path : string;
  execute_remotely : bool;
  steps_to_execute : list nat
}.

Record Config := {
  steps_directory : string;
  solution_directory : string;
  max_retries : Z;
  remote_servers : list Server
}.

(** ** The outside world *)

(** What a request to the completion API can come back with: the message
    content, the rate-limit error, or any other exception. *)
Inductive api_outcome :=
| ApiText (content : string)
| ApiRateLimit
| ApiError.

Inductive request :=
| GenerateReq (step_description problem_definition : string) (step_number : nat)
| FixReq (error_message step_code : string) (step_number : nat)
         (problem_definition : string)
| FixMainReq (error_message main_code problem_definition : string).

(** [subprocess.run(..., check=True)]: the child ran to completion with a
    return code, or the call raised something else than
    [CalledProcessError]. *)
Inductive proc_outcome :=
| Completed (returncode : Z) (stdout stderr : string)
| ProcRaised.

(** [SSHClient.exec_command] followed by the two reads: the streams of the
    remote command (its exit status is on the channel, the source never
    asks for it), or an exception with its message. *)
Inductive exec_outcome :=
| Streams (out err : string) (exit_status : Z)
| ExecRaised (message : string).

(** The answers of the outside world, by the time of asking.  [os_walk]
    is what [os.walk] yields for a directory: the directories below it,
    itself included, each with the names of its files (the names of its
    sub-directories, which the source does not use, are left out).
    [os_path_relpath] is [os.path.relpath], a function of its arguments. *)
Record Env := {
  completions_create : nat -> request -> api_outcome;
  open_for_read : nat -> string -> bool;
  open_for_write : nat -> string -> bool;
  subprocess_run : nat -> string -> option string -> proc_outcome;
  os_path_exists : nat -> string -> bool;
  ssh_connect : nat -> Server -> bool;
  sftp_put : nat -> Server -> string -> string -> bool;
  exec_command : nat -> Server -> string -> exec_outcome;
  os_walk : nat -> string -> list (string * list string);
  os_path_relpath : string -> string -> string
}.

(** How one visit of [process_steps] ends (one per log line of the loop
    body, main_pipeline.py lines 79-118). *)
Inductive step_outcome :=
| GenerationFailed
| SaveFailed
| ExtractionFailed
| ExecutionFailed
| Succeeded.

(** What the pipeline did, in order.  [EvRun] is one call of [run_step]
    with the backend it really used ([Some server]: the remote branch). *)
Inductive event :=
| EvGenerate (step_number : nat) (reply : option string)
| EvSave (step_number : nat) (code : string) (path : option string)
| EvRun (path : string) (remote : option Server) (success : bool) (text : string)
| EvRead (path : string) (text : string)
| EvFix (step_number : nat) (reply : option string)
| EvUpdate (path code : string) (written : bool)
| EvSleep (seconds : nat)
| EvVisit (step_number : nat) (description : string) (outcome : step_outcome)
| EvFixMain (reply : option string)
| EvMain (path code : string) (written : bool)
| EvTransfer (server : Server) (success : bool).

Record Sys := mkSys {
  files : gmap string string;
  clock : nat
}.

(** ** The monad of pipeline computations *)

Definition M (A : Type) : Type := Sys -> A * Sys * list event.

Definition ret {A} (a : A) : M A := fun s => (a, s, []).

Definition bind {A B} (m : M A) (k : A -> M B) : M B :=
  fun s =>
    let '(a, s1, e1) := m s in
    let '(b, s2, e2) := k a s1 in
    (b, s2, e1 ++ e2).

Notation "'let*' x ':=' m 'in' k" := (bind m (fun x => k))
  (at level 10, x name, m at level 100, k at level 200).
Notation "'do' m 'then' k" := (bind m (fun _ => k))
  (at level 10, m at level 100, k at level 200).

Definition emit (e : event) : M unit := fun s => (tt, s, [e]).

(** Ask the environment, at the current time; the clock advances. *)
Definition ask {A} (q : nat -> A) : M A :=
  fun s => (q (clock s), mkSys (files s) (S (clock s)), []).

Definition get_files : M (gmap string string) := fun s => (files s, s, []).

Definition put_file (path text : string) : M unit :=
  fun s => (tt, mkSys (<[path := text]> (files s)) (clock s), []).

Definition result_of {A} (r : A * Sys * list event) : A := fst (fst r).
Definition sys_of {A} (r : A * Sys * list event) : Sys := snd (fst r).
Definition events_of {A} (r : A * Sys * list event) : list event := snd r.

(** Where [execute_and_fix_step] leaves its loop; the source returns
    [True] at the first and [False] at the three others (lines 233, 239,
    247 and 249), each with a log line of its own. *)
Inductive loop_exit :=
| ExitSuccess
| ExitNoCode
| ExitNoFix
| ExitMaxRetries.

Definition exit_ok (x : loop_exit) : bool :=
  match x with
  | ExitSuccess => true
  | _ => false
  end.

(** Backend selection, main_pipeline.py lines 95-104: the first server
    whose [steps_to_execute] contains the ordinal decides, and the scan
    stops there ([break]). *)
Fixpoint select_backend (servers : list Server) (step_counter : nat)
  : bool * option Server :=
  match servers with
  | [] => (false, None)
  | server :: rest =>
      if existsb (Nat.eqb step_counter) (steps_to_execute server)
      then (execute_remotely server, Some server)
      else select_backend rest step_counter
  end.

(** The guard of [run_step], line 140: [execute_remotely and server_config]. *)
Definition remote_target (execute_remotely : bool) (server_config : option Server)
  : option Server :=
  if execute_remotely then server_config else None.

Section Pipeline.

Variable ast_parse : string -> option (list stmt).
Variable env : Env.
Variable config : Config.

(** *** ssh_manager.py

    [establish_connection] returns [False] on every exception; the client
    object exists from then on, so the test [if not self.ssh_client] of the
    two other methods never fires in [run_step]. *)

Definition establish_connection (server : Server) : M bool :=
  if truthy (ssh_key_path server) then
    let* found := ask (fun t => os_path_exists env t (ssh_key_path server)) in
    if negb found then ret false
    else ask (fun t => ssh_connect env t server)
  else ask (fun t => ssh_connect env t server).

Definition execute_command (server : Server) (command : string)
  : M (string * string) :=
  let* r := ask (fun t => exec_command env t server command) in
  ret (match r with
       | Streams out err _ => (out, err)
       | ExecRaised message => ("", message)
       end).

Definition transfer_file (server : Server) (local_path remote_path : string)
  : M bool :=
  ask (fun t => sftp_put env t server local_path remote_path).

(** *** step_manager.py *)

(** The request loop shared by [generate_step_code] (lines 33-65) and
    [fix_code_with_gpt4] (lines 193-225): at most three requests, a
    rate-limit error sleeps ten seconds and asks again, any other error
    gives [None], an answer is returned stripped (possibly empty). *)
Fixpoint request_loop (attempts_left : nat) (req : request) : M (option string) :=
  match attempts_left with
  | O => ret None
  | S attempts_left' =>
      let* r := ask (fun t => completions_create env t req) in
      match r with
      | ApiText content => ret (Some (strip content))
      | ApiRateLimit =>
          do emit (EvSleep 10) then request_loop attempts_left' req
      | ApiError => ret None
      end
  end.

Definition generate_step_code (step_description problem_definition : string)
  (step_number : nat) : M (option string) :=
  let* code :=
    request_loop 3 (GenerateReq step_description problem_definition step_number) in
  do emit (EvGenerate step_number code) then ret code.

(** [open_for_write] answers for the whole write: in the model it fails
    at [open] or not at all, and a failed write leaves the file as it
    was.  A write that fails after the file was opened lies outside the
    model. *)
Definition save_step_code (step_number : nat) (step_code : string)
  : M (option string) :=
  let step_filename := "step_" +:+ pad3 step_number +:+ ".py" in
  let step_path := path_join (steps_directory config) step_filename in
  let* ok := ask (fun t => open_for_write env t step_path) in
  let* saved :=
    (if ok then do put_file step_path step_code then ret (Some step_path)
     else ret None) in
  do emit (EvSave step_number step_code saved) then ret saved.

(** A file that is missing or cannot be opened reads as the empty text.
    The text is returned as it is stored: the translation of line ends by
    the text mode, and a file that does not decode, lie outside the
    model. *)
Definition get_step_code (step_path : string) : M string :=
  let* ok := ask (fun t => open_for_read env t step_path) in
  let* fs := get_files in
  let text := if ok then default "" (fs !! step_path) else "" in
  do emit (EvRead step_path text) then ret text.

(** A failed write is logged and nothing else; as in [save_step_code] it
    fails as a whole and the file keeps its text. *)
Definition update_step_code (step_path new_code : string) : M unit :=
  let* ok := ask (fun t => open_for_write env t step_path) in
  do (if ok then put_file step_path new_code else ret tt) then
  emit (EvUpdate step_path new_code ok).

Definition run_remote (step_path : string) (server : Server) : M (bool * string) :=
  let* connected := establish_connection server in
  if negb connected then ret (false, "SSH connection failed.")
  else
    let remote_path := "/tmp/" +:+ basename step_path in
    let* transferred := transfer_file server step_path remote_path in
    if negb transferred then ret (false, "File transfer failed.")
    else
      let* oe := execute_command server ("python " +:+ remote_path) in
      if negb (truthy (snd oe)) then ret (true, fst oe)
      else ret (false, snd oe).

(** The child process is given the text of the file and answers with its
    outcome.  What the executed code does to the disk lies outside the
    model: [files] records the writes of the pipeline itself. *)
Definition run_local (step_path : string) : M (bool * string) :=
  let* fs := get_files in
  let* r := ask (fun t => subprocess_run env t step_path (fs !! step_path)) in
  ret (match r with
       | Completed returncode stdout stderr =>
           if Z.eqb returncode 0 then (true, stdout) else (false, stderr)
       | ProcRaised => (false, "Execution failed.")
       end).

Definition run_step (step_path : string) (execute_remotely : bool)
  (server_config : option Server) : M (bool * string) :=
  let target := remote_target execute_remotely server_config in
  let* r := (match target with
             | Some server => run_remote step_path server
             | None => run_local step_path
             end) in
  do emit (EvRun step_path target (fst r) (snd r)) then ret r.

Definition fix_code_with_gpt4 (error_message step_code : string)
  (step_number : nat) (problem_definition : string) : M (option string) :=
  let* corrected :=
    request_loop 3 (FixReq error_message step_code step_number problem_definition) in
  do emit (EvFix step_number corrected) then ret corrected.

(** The [while retries < max_retries] loop of [execute_and_fix_step],
    lines 230-249, by recursion on [budget = max_retries - retries]. *)
Fixpoint repair_loop (budget : nat) (step_path : string) (step_number : nat)
  (problem_definition : string) (execute_remotely : bool)
  (server_config : option Server) : M loop_exit :=
  match budget with
  | O => ret ExitMaxRetries
  | S budget' =>
      let* r := run_step step_path execute_remotely server_config in
      if fst r then ret ExitSuccess
      else
        let* step_code := get_step_code step_path in
        if negb (truthy step_code) then ret ExitNoCode
        else
          let* corrected :=
            fix_code_with_gpt4 (snd r) step_code step_number problem_definition in
          match corrected with
          | Some corrected_code =>
              if truthy corrected_code then
                do update_step_code step_path corrected_code then
                do emit (EvSleep 2) then
                repair_loop budget' step_path step_number problem_definition
                  execute_remotely server_config
              else ret ExitNoFix
          | None => ret ExitNoFix
          end
  end.

Definition execute_and_fix_exit (step_path : string) (step_number : nat)
  (problem_definition : string) (max_retries : Z) (execute_remotely : bool)
  (server_config : option Server) : M loop_exit :=
  repair_loop (Z.to_nat max_retries) step_path step_number problem_definition
    execute_remotely server_config.

Definition execute_and_fix_step (step_path : string) (step_number : nat)
  (problem_definition : string) (max_retries : Z) (execute_remotely : bool)
  (server_config : option Server) : M bool :=
  let* x := execute_and_fix_exit step_path step_number problem_definition
              max_retries execute_remotely server_config in
  ret (exit_ok x).

(** *** main_pipeline.py *)

Definition visit_done (step_counter : nat) (step : string)
  (outcome : step_outcome) (result : option string) : M (option string) :=
  do emit (EvVisit step_counter step outcome) then ret result.

(** The body of the loop of [process_steps], lines 78-117, for one step;
    the result is the path appended to [executed_steps], if any.  Every
    way out is followed by [step_counter += 1] (see [process_section]). *)
Definition process_step (step problem_definition : string) (step_counter : nat)
  : M (option string) :=
  let* generated := generate_step_code step problem_definition step_counter in
  if negb (usable generated) then
    visit_done step_counter step GenerationFailed None
  else
    let step_code :=
      add_main_block ast_parse (default "" generated) step_counter in
    let* saved := save_step_code step_counter step_code in
    match saved with
    | None => visit_done step_counter step SaveFailed None
    | Some step_path =>
        if negb (usable (extract_class_name ast_parse step_code)) then
          visit_done step_counter step ExtractionFailed None
        else
          let '(execute_remotely, server_config) :=
            select_backend (remote_servers config) step_counter in
          let* success :=
            execute_and_fix_step step_path step_counter problem_definition
              (max_retries config) execute_remotely server_config in
          if success then
            visit_done step_counter step Succeeded (Some step_path)
          else visit_done step_counter step ExecutionFailed None
    end.

Definition append_path (executed_steps : list string) (r : option string)
  : list string :=
  match r with
  | Some step_path => executed_steps ++ [step_path]
  | None => executed_steps
  end.

(** [for step in steps], with the running [step_counter] and
    [executed_steps]. *)
Fixpoint process_section (steps : list string) (problem_definition : string)
  (step_counter : nat) (executed_steps : list string)
  : M (nat * list string) :=
  match steps with
  | [] => ret (step_counter, executed_steps)
  | step :: rest =>
      let* r := process_step step problem_definition step_counter in
      process_section rest problem_definition (S step_counter)
        (append_path executed_steps r)
  end.

(** [for title, steps in plan.items()]: the plan is the dictionary in
    insertion order. *)
Fixpoint process_plan (plan : list (string * list string))
  (problem_definition : string) (step_counter : nat)
  (executed_steps : list string) : M (nat * list string) :=
  match plan with
  | [] => ret (step_counter, executed_steps)
  | (_, steps) :: rest =>
      let* r := process_section steps problem_definition step_counter
                  executed_steps in
      process_plan rest problem_definition (fst r) (snd r)
  end.

Definition process_steps (plan : list (string * list string))
  (problem_definition : string) : M (list string) :=
  let* r := process_plan plan problem_definition 1 [] in
  ret (snd r).

(** *** solution_assembler.py *)

Definition import_line (module_name class_name : string) : string :=
  "from steps." +:+ module_name +:+ " import " +:+ class_name +:+ nl.

Definition execution_lines (step_number class_name : string) : string :=
  "    step" +:+ step_number +:+ " = " +:+ class_name +:+ "()" +:+ nl
  +:+ "    step" +:+ step_number +:+ ".execute()" +:+ nl +:+ nl.

(** The loop of [assemble_solution], lines 24-42; an artifact that fails
    one of the three tests is left out ([continue]). *)
Fixpoint assemble_loop (executed_steps : list string)
  (main_imports main_executions : string) : M (string * string) :=
  match executed_steps with
  | [] => ret (main_imports, main_executions)
  | step_path :: rest =>
      let step_filename := basename step_path in
      let module_name := splitext_root step_filename in
      match search_step_number step_filename with
      | None => assemble_loop rest main_imports main_executions
      | Some step_number =>
          let* step_code := get_step_code step_path in
          if negb (truthy step_code) then
            assemble_loop rest main_imports main_executions
          else
            match extract_class_name ast_parse step_code with
            | Some class_name =>
                if truthy class_name then
                  assemble_loop rest
                    (main_imports +:+ import_line module_name class_name)
                    (main_executions +:+ execution_lines step_number class_name)
                else assemble_loop rest main_imports main_executions
            | None => assemble_loop rest main_imports main_executions
            end
      end
  end.

Definition indent24 : string := "                        ".

(** The template of lines 48-56. *)
Definition main_template (main_imports main_executions : string) : string :=
  indent24 +:+ main_imports +:+ nl +:+ nl
  +:+ indent24 +:+ "def main():" +:+ nl
  +:+ indent24 +:+ main_executions +:+ nl +:+ nl
  +:+ indent24 +:+ "if __name__ == " +:+ dq +:+ "__main__" +:+ dq +:+ ":" +:+ nl
  +:+ indent24 +:+ "    main()" +:+ nl
  +:+ indent24.

Definition assemble_solution (executed_steps : list string) : M (option string) :=
  let* r := assemble_loop executed_steps "" "" in
  if negb (truthy (fst r)) && negb (truthy (snd r)) then ret None
  else
    let main_code := main_template (fst r) (snd r) in
    let main_file_path := path_join (solution_directory config) "main.py" in
    let* ok := ask (fun t => open_for_write env t main_file_path) in
    do (if ok then put_file main_file_path main_code else ret tt) then
    do emit (EvMain main_file_path main_code ok) then
    ret (if ok then Some main_file_path else None).

Definition execute_main (main_file_path : string) : M (bool * string) :=
  let* r := run_local main_file_path in
  do emit (EvRun main_file_path None (fst r) (snd r)) then ret r.

Definition fix_main_with_gpt4 (error_message main_code problem_definition : string)
  : M (option string) :=
  let* corrected :=
    request_loop 3 (FixMainReq error_message main_code problem_definition) in
  do emit (EvFixMain corrected) then ret corrected.

(** [execute_and_fix_main], lines 162-183: the loop of
    [execute_and_fix_step] on main.py, always local; [get_main_code] and
    [update_main_code] are the code of [get_step_code] and
    [update_step_code]. *)
Fixpoint repair_main_loop (budget : nat) (main_file_path problem_definition : string)
  : M bool :=
  match budget with
  | O => ret false
  | S budget' =>
      let* r := execute_main main_file_path in
      if fst r then ret true
      else
        let* main_code := get_step_code main_file_path in
        if negb (truthy main_code) then ret false
        else
          let* corrected :=
            fix_main_with_gpt4 (snd r) main_code problem_definition in
          match corrected with
          | Some corrected_code =>
              if truthy corrected_code then
                do update_step_code main_file_path corrected_code then
                do emit (EvSleep 2) then
                repair_main_loop budget' main_file_path problem_definition
              else ret false
          | None => ret false
          end
  end.

Definition execute_and_fix_main (main_file_path problem_definition : string)
  (max_retries : Z) : M bool :=
  repair_main_loop (Z.to_nat max_retries) main_file_path problem_definition.

(** *** main_pipeline.py, continued *)

Definition assemble_and_execute_solution (executed_steps : list string)
  (problem_definition : string) : M bool :=
  let* main_file_path := assemble_solution executed_steps in
  match main_file_path with
  | None => ret false
  | Some path =>
      execute_and_fix_main path problem_definition (max_retries config)
  end.

(** *** solution_assembler.py: [transfer_solution_to_remote]

    The loops of lines 210-220 over what [os.walk] yields: each file is
    sent after a [mkdir -p] of its remote directory, and the first file
    that cannot be sent ends the transfer.  [execute_command] and
    [transfer_file] catch their exceptions, so the handler of line 224 has
    nothing to catch in what is modelled. *)
Fixpoint transfer_files (server : Server)
  (solution_dir remote_solution_dir : string) (local_paths : list string)
  : M bool :=
  match local_paths with
  | [] => ret true
  | local_path :: rest =>
      let relative_path := os_path_relpath env local_path solution_dir in
      let remote_path :=
        backslashes_to_slashes (path_join remote_solution_dir relative_path) in
      let remote_dir := dirname remote_path in
      do execute_command server ("mkdir -p " +:+ remote_dir) then
      let* sent := transfer_file server local_path remote_path in
      if negb sent then ret false
      else transfer_files server solution_dir remote_solution_dir rest
  end.

(** The files [os.walk] yields, directory by directory, each joined to
    its directory.  The generator is asked once, when the loop starts. *)
Definition walked_files (walk : list (string * list string)) : list string :=
  flat_map (fun d => map (path_join (fst d)) (snd d)) walk.

Definition transfer_solution_to_remote (solution_dir : string) (server : Server)
  : M bool :=
  let* connected := establish_connection server in
  if negb connected then ret false
  else
    let remote_solution_dir := "/home/" +:+ username server +:+ "/solution" in
    do execute_command server ("mkdir -p " +:+ remote_solution_dir) then
    let* walk := ask (fun t => os_walk env t solution_dir) in
    transfer_files server solution_dir remote_solution_dir (walked_files walk).

(** *** main_pipeline.py, the end of [run] *)

(** The loop of lines 168-177: the solution goes to every server with
    [execute_remotely] set and a non-empty [steps_to_execute]; a transfer
    that fails is logged and the loop goes on. *)
Fixpoint deploy (servers : list Server) : M unit :=
  match servers with
  | [] => ret tt
  | server :: rest =>
      if execute_remotely server
         && match steps_to_execute server with [] => false | _ => true end
      then
        let* transfer_success :=
          transfer_solution_to_remote (solution_directory config) server in
        do emit (EvTransfer server transfer_success) then deploy rest
      else deploy rest
  end.

(** [run], lines 160-180, from a plan and a problem already loaded: the
    result is the status of [sys.exit], [None] when [run] returns. *)
Definition run (plan : list (string * list string)) (problem : string)
  : M (option Z) :=
  let* executed_steps := process_steps plan problem in
  match executed_steps with
  | [] => ret (Some 1%Z)
  | _ :: _ =>
      let* success := assemble_and_execute_solution executed_steps problem in
      if success then do deploy (remote_servers config) then ret None
      else ret (Some 1%Z)
  end.

End Pipeline.

(** ** Reading a trace *)

Definition is_run (e : event) : bool :=
  match e with
  | EvRun _ _ _ _ => true
  | _ => false
  end.

Definition is_fix (e : event) : bool :=
  match e with
  | EvFix _ _ => true
  | _ => false
  end.

Definition is_update (e : event) : bool :=
  match e with
  | EvUpdate _ _ _ => true
  | _ => false
  end.

Definition count (f : event -> bool) (evs : list event) : nat :=
  length (List.filter f evs).

(** Calls of [run_step], of [fix_code_with_gpt4] and of [update_step_code]. *)
Definition executions : list event -> nat := count is_run.
Definition oracle_calls : list event -> nat := count is_fix.
Definition updates : list event -> nat := count is_update.

Definition run_failed (e : event) : Prop :=
  match e with
  | EvRun _ _ ok _ => ok = false
  | _ => True
  end.

Definition fix_usable (e : event) : Prop :=
  match e with
  | EvFix _ reply => usable reply = true
  | _ => True
  end.

Definition read_nonempty (e : event) : Prop :=
  match e with
  | EvRead _ text => truthy text = true
  | _ => True
  end.

Definition on_target (tg : option Server) (e : event) : Prop :=
  match e with
  | EvRun _ t _ _ => t = tg
  | _ => True
  end.

Definition is_read (e : event) : bool :=
  match e with
  | EvRead _ _ => true
  | _ => false
  end.

Definition is_empty_read (e : event) : bool :=
  match e with
  | EvRead _ text => negb (truthy text)
  | _ => false
  end.

(** The events after which [execute_and_fix_step] returns at once, with
    the exit they lead to. *)
Definition verdict (e : event) : option loop_exit :=
  match e with
  | EvRun _ _ true _ => Some ExitSuccess
  | EvRead _ text => if truthy text then None else Some ExitNoCode
  | EvFix _ reply => if usable reply then None else Some ExitNoFix
  | _ => None
  end.

(** The runs and the oracle calls of a trace, in order ([true]: a run),
    and the pattern run, oracle, run, oracle, ... of [b] rounds. *)
Definition run_fix_pattern (evs : list event) : list bool :=
  map is_run (List.filter (fun e => is_run e || is_fix e) evs).

Fixpoint alternation (b : nat) : list bool :=
  match b with
  | O => []
  | S b' => true :: false :: alternation b'
  end.

(** The ordinals visited by [process_steps], with their descriptions. *)
Definition visited (evs : list event) : list (nat * string) :=
  flat_map (fun e => match e with
                     | EvVisit n d _ => [(n, d)]
                     | _ => []
                     end) evs.

Definition ends_visit (post : list event) : Prop :=
  exists n d post', post = EvVisit n d ExecutionFailed :: post'.

(** Every empty read-back is followed at once by the end of its step. *)
Definition reads_local (evs : list event) : Prop :=
  forall pre q post, evs = pre ++ EvRead q "" :: post -> ends_visit post.

Definition step_file (config : Config) (n : nat) : string :=
  path_join (steps_directory config) ("step_" +:+ pad3 n +:+ ".py").

Definition main_file (config : Config) : string :=
  path_join (solution_directory config) "main.py".

(** The command [run_step] sends to the remote host, lines 144 and 148. *)
Definition remote_command (step_path : string) : string :=
  "python " +:+ ("/tmp/" +:+ basename step_path).

(** The backend [process_steps] hands to [run_step] for ordinal [n]. *)
Definition chosen_target (config : Config) (n : nat) : option Server :=
  let sel := select_backend (remote_servers config) n in
  remote_target (fst sel) (snd sel).

(** An artifact read by [assemble_solution] that adds its import line. *)
Definition contributes (ast_parse : string -> option (list stmt)) (e : event)
  : bool :=
  match e with
  | EvRead _ text => truthy text && usable (extract_class_name ast_parse text)
  | _ => false
  end.

(** *** The traces of [execute_and_fix_step]

    [attempts p tg n b fs x evs fs']: with a budget of [b] rounds and the
    files [fs], the loop on artifact [p] can leave by [x] with the events
    [evs] and the files [fs']. *)
Inductive attempts (p : string) (tg : option Server) (n : nat)
  : nat -> gmap string string -> loop_exit -> list event
    -> gmap string string -> Prop :=
| attempts_exhausted fs : attempts p tg n 0 fs ExitMaxRetries [] fs
| attempts_success b fs out :
    attempts p tg n (S b) fs ExitSuccess [EvRun p tg true out] fs
| attempts_no_code b fs err :
    attempts p tg n (S b) fs ExitNoCode [EvRun p tg false err; EvRead p ""] fs
| attempts_no_fix b fs err code j reply :
    truthy code = true -> usable reply = false ->
    attempts p tg n (S b) fs ExitNoFix
      (EvRun p tg false err :: EvRead p code
         :: repeat (EvSleep 10) j ++ [EvFix n reply]) fs
| attempts_retry b fs err code j c ok x evs fs' :
    truthy code = true -> truthy c = true ->
    attempts p tg n b (if ok : bool then <[p:=c]> fs else fs) x evs fs' ->
    attempts p tg n (S b) fs x
      (EvRun p tg false err :: EvRead p code
         :: repeat (EvSleep 10) j
         ++ [EvFix n (Some c); EvUpdate p c ok; EvSleep 2] ++ evs) fs'.

(** *** The traces of one visit of [process_steps] *)
Inductive visit (ast_parse : string -> option (list stmt)) (config : Config)
  (n : nat) (step : string) : option string -> list event -> Prop :=
| visit_generation_failed j reply :
    usable reply = false ->
    visit ast_parse config n step None
      (repeat (EvSleep 10) j
         ++ [EvGenerate n reply; EvVisit n step GenerationFailed])
| visit_save_failed j code :
    truthy code = true ->
    visit ast_parse config n step None
      (repeat (EvSleep 10) j
         ++ [EvGenerate n (Some code);
             EvSave n (add_main_block ast_parse code n) None;
             EvVisit n step SaveFailed])
| visit_extraction_failed j code :
    truthy code = true ->
    usable (extract_class_name ast_parse (add_main_block ast_parse code n))
    = false ->
    visit ast_parse config n step None
      (repeat (EvSleep 10) j
         ++ [EvGenerate n (Some code);
             EvSave n (add_main_block ast_parse code n)
               (Some (step_file config n));
             EvVisit n step ExtractionFailed])
| visit_executed j code fs x evs fs' :
    truthy code = true ->
    usable (extract_class_name ast_parse (add_main_block ast_parse code n))
    = true ->
    attempts (step_file config n) (chosen_target config n) n
      (Z.to_nat (max_retries config)) fs x evs fs' ->
    visit ast_parse config n step
      (if exit_ok x then Some (step_file config n) else None)
      (repeat (EvSleep 10) j
         ++ EvGenerate n (Some code)
         :: EvSave n (add_main_block ast_parse code n)
              (Some (step_file config n))
         :: evs
         ++ [EvVisit n step
               (if exit_ok x then Succeeded else ExecutionFailed)]).

(** The traces of the whole plan, from ordinal [c] on. *)
Inductive visits (ast_parse : string -> option (list stmt)) (config : Config)
  : nat -> list string -> list event -> Prop :=
| visits_nil c : visits ast_parse config c [] []
| visits_cons c step rest res evs evs' :
    visit ast_parse config c step res evs ->
    visits ast_parse config (S c) rest evs' ->
    visits ast_parse config c (step :: rest) (evs ++ evs').

(** ** The entry contract in the words of the specification

    "exactly one discoverable top-level entry type named [Step<ordinal>],
    and an invocable unit named [execute] on it".  The source has no such
    test; this definition is what section 4.1 asks for. *)
Definition has_execute (body : list stmt) : bool :=
  existsb (fun s => match s with
                    | FunctionDef name _ => String.eqb name "execute"
                    | _ => false
                    end) body.

Definition is_entry_type (n : nat) (s : stmt) : bool :=
  match s with
  | ClassDef name body => String.eqb name ("Step" +:+ dec n) && has_execute body
  | _ => false
  end.

Definition spec_entry_contract (ast_parse : string -> option (list stmt))
  (n : nat) (text : string) : bool :=
  match ast_parse text with
  | Some tree => Nat.eqb (length (List.filter (is_entry_type n) tree)) 1
  | None => false
  end.

(** ** Sample programs and environments

    [sample_parse] gives, for the few texts listed, the tree CPython's
    [ast.parse] builds for them, and fails on every other text. *)

Definition src_step (n : nat) : string :=
  "class Step" +:+ dec n +:+ ":" +:+ nl
  +:+ "    def execute(self):" +:+ nl
  +:+ "        pass".

Definition tree_step (n : nat) : list stmt :=
  [ClassDef ("Step" +:+ dec n) [FunctionDef "execute" [Other []]]].

Definition src_foo : string := "class Foo:" +:+ nl +:+ "    pass".
Definition tree_foo : list stmt := [ClassDef "Foo" [Other []]].

Definition src_print : string := "print(1)".
Definition tree_print : list stmt := [Other []].

(** The tree of the block [main_code] appends. *)
Definition guard_stmt : stmt :=
  If (Compare (Name "__name__") [Eq] [Constant "__main__"])
    [Other []; Other []] [].

Definition sample_sources : list (string * list stmt) :=
  [(src_step 1, tree_step 1); (src_step 2, tree_step 2);
   (src_foo, tree_foo); (src_print, tree_print)].

Definition with_guard (n : nat) (e : string * list stmt) : string * list stmt :=
  (fst e +:+ main_code n, snd e ++ [guard_stmt]).

Definition sample_table : list (string * list stmt) :=
  Eval vm_compute in
    sample_sources ++ map (with_guard 1) sample_sources
    ++ map (with_guard 2) sample_sources.

Definition sample_parse (s : string) : option (list stmt) :=
  match find (fun e => String.eqb s (fst e)) sample_table with
  | Some e => Some (snd e)
  | None => None
  end.

(** An environment whose answers do not depend on the time. *)
Definition sample_env (api : request -> api_outcome)
  (readable writable : string -> bool)
  (proc : string -> option string -> proc_outcome) (remote : exec_outcome)
  : Env :=
  {| completions_create := fun _ => api;
     open_for_read := fun _ => readable;
     open_for_write := fun _ => writable;
     subprocess_run := fun _ => proc;
     os_path_exists := fun _ _ => true;
     ssh_connect := fun _ _ => true;
     sftp_put := fun _ _ _ _ => true;
     exec_command := fun _ _ _ => remote;
     os_walk := fun _ top => [(top, ["main.py"])];
     os_path_relpath := fun path start => basename path |}.

Definition yes (p : string) : bool := true.
Definition no (p : string) : bool := false.

Definition api_fixed (r : request) : api_outcome := ApiText "print(2)".
Definition api_down (r : request) : api_outcome := ApiError.

Definition proc_failing (p : string) (c : option string) : proc_outcome :=
  Completed 1 "" "Traceback".

Definition quiet : exec_outcome := Streams "" "" 0.

Definition path1 : string := "steps/step_001.py".
Definition path2 : string := "steps/step_002.py".

Definition sys_empty : Sys := mkSys ∅ 0.
Definition sys_old : Sys := mkSys {[ path1 := "print(1)" ]} 0.

Definition sample_config (retries : Z) (servers : list Server) : Config :=
  {| steps_directory := "steps";
     solution_directory := "solution";
     max_retries := retries;
     remote_servers := servers |}.

(** Runs always fail, the artifact reads back, the oracle always answers. *)
Definition env_stubborn : Env :=
  sample_env api_fixed yes yes proc_failing quiet.

(** As [env_stubborn], but no file can be opened for writing. *)
Definition env_readonly : Env :=
  sample_env api_fixed yes no proc_failing quiet.

(** As [env_stubborn], but the completion API raises an error. *)
Definition env_no_oracle : Env :=
  sample_env api_down yes yes proc_failing quiet.

(** The oracle writes a class of another name, without [execute]. *)
Definition api_foo (r : request) : api_outcome := ApiText src_foo.
Definition env_foo : Env := sample_env api_foo yes yes proc_failing quiet.

(** The oracle writes a program without any class. *)
Definition api_print (r : request) : api_outcome := ApiText src_print.
Definition env_print : Env := sample_env api_print yes yes proc_failing quiet.

(** The oracle writes [Step<n>] for step [n]. *)
Definition api_steps (r : request) : api_outcome :=
  match r with
  | GenerateReq _ _ n => ApiText (src_step n)
  | _ => ApiText "print(2)"
  end.

Definition env_steps : Env := sample_env api_steps yes yes proc_failing quiet.

(** Step 1 fails and its artifact cannot be read back; everything else
    works. *)
Definition proc_second_only (p : string) (c : option string) : proc_outcome :=
  if String.eqb p path1 then Completed 1 "" "Traceback" else Completed 0 "" "".

Definition all_but_first (p : string) : bool := negb (String.eqb p path1).

Definition env_first_lost : Env :=
  sample_env api_steps all_but_first yes proc_second_only quiet.

Definition two_steps : list (string * list string) :=
  [("Setup", ["first"]); ("Core", ["second"])].

Definition server_a : Server :=
  {| hostname := "a.example"; port := 22; username := "user";
     password := None; ssh_key_path := "/app/.ssh/id_rsa";
     execute_remotely := true; steps_to_execute := [2; 3] |}.

Definition server_b : Server :=
  {| hostname := "b.example"; port := 22; username := "user";
     password := None; ssh_key_path := "/app/.ssh/id_rsa";
     execute_remotely := true; steps_to_execute := [2] |}.


(** Two artifacts on disk: the first with its class, the second without. *)
Definition sys_two : Sys :=
  mkSys {[ path1 := src_step 1 +:+ main_code 1; path2 := src_print ]} 0.

(** ** Further definitions: traces, names, configuration, plan, containers *)


(** The artifacts of the visits that ended in success, in order. *)
Definition succeeded_paths (config : Config) (evs : list event) : list string :=
  flat_map (fun e => match e with
                     | EvVisit n _ Succeeded => [step_file config n]
                     | _ => []
                     end) evs.

(** Every record of a succeeded step comes right after a successful run of
    that step's artifact on that step's backend. *)
Definition after_own_success (config : Config) (evs : list event) : Prop :=
  forall pre n d post,
    evs = pre ++ EvVisit n d Succeeded :: post ->
    exists pre' out,
      pre = pre' ++ [EvRun (step_file config n) (chosen_target config n) true out].

(** What the names of step files are made of: strings of digits, strings
    without a path separator, strings without a dot. *)
Fixpoint digits_only (s : string) : bool :=
  match s with
  | EmptyString => true
  | String c s' => is_digit c && digits_only s'
  end.

Fixpoint no_slash (s : string) : bool :=
  match s with
  | EmptyString => true
  | String c s' => negb (Ascii.eqb c "/"%char) && no_slash s'
  end.

Fixpoint no_dot (s : string) : bool :=
  match s with
  | EmptyString => true
  | String c s' => negb (Ascii.eqb c "."%char) && no_dot s'
  end.

(** [k] zeros in front of a decimal number. *)
Fixpoint lead_zeros (k : nat) (u : Decimal.uint) : Decimal.uint :=
  match k with
  | O => u
  | S k' => Decimal.D0 (lead_zeros k' u)
  end.






(** As [env_steps], but no SSH key file exists. *)
Definition env_no_key : Env :=
  {| completions_create := fun _ => api_steps;
     open_for_read := fun _ => yes;
     open_for_write := fun _ => yes;
     subprocess_run := fun _ _ _ => Completed 0 "" "";
     os_path_exists := fun _ _ => false;
     ssh_connect := fun _ _ => true;
     sftp_put := fun _ _ _ _ => true;
     exec_command := fun _ _ _ => quiet;
     os_walk := fun _ top => [(top, ["main.py"])];
     os_path_relpath := fun path start => basename path |}.

(** The transport raises an exception whose message is empty. *)
Definition env_silent_fault : Env :=
  sample_env api_steps yes yes proc_failing (ExecRaised "").

(** A run that failed because the connection was refused before it was
    attempted. *)
Definition connection_failed (e : event) : Prop :=
  match e with
  | EvRun _ _ ok text => ok = false /\ text = "SSH connection failed."
  | _ => True
  end.

(** ** config.py

    The values [yaml.safe_load] builds.  A mapping is the list of its
    entries in insertion order, as a Python [dict] keeps them (those under
    string keys: the code looks up no other); [YOther] is
    any value of another type (a float, a date), with its truth value. *)
Inductive yaml :=
| YNone
| YBool (b : bool)
| YInt (z : Z)
| YStr (s : string)
| YList (items : list yaml)
| YDict (entries : list (string * yaml))
| YOther (truth : bool).

(** Python truthiness, for [yaml.safe_load(file) or {}]. *)
Definition yaml_truthy (y : yaml) : bool :=
  match y with
  | YNone => false
  | YBool b => b
  | YInt z => negb (Z.eqb z 0)
  | YStr s => truthy s
  | YList items => match items with [] => false | _ => true end
  | YDict entries => match entries with [] => false | _ => true end
  | YOther truth => truth
  end.

Fixpoint dict_lookup (k : string) (d : list (string * yaml)) : option yaml :=
  match d with
  | [] => None
  | (k', v) :: rest => if String.eqb k k' then Some v else dict_lookup k rest
  end.

(** [d.get(k)]: [None] when the key is missing. *)
Definition dict_get (k : string) (d : list (string * yaml)) : yaml :=
  match dict_lookup k d with
  | Some v => v
  | None => YNone
  end.

(** [d.setdefault(k, v)]. *)
Definition setdefault (k : string) (v : yaml) (d : list (string * yaml))
  : list (string * yaml) :=
  match dict_lookup k d with
  | Some _ => d
  | None => d ++ [(k, v)]
  end.

(** [DEFAULT_CONFIG], lines 7-25. *)
Definition default_server : yaml :=
  YDict [("hostname", YStr "remote.server.com");
         ("port", YInt 22);
         ("username", YStr "user");
         ("password", YNone);
         ("ssh_key_path", YStr "/app/.ssh/id_rsa");
         ("execute_remotely", YBool false);
         ("steps_to_execute", YList [])].

Definition DEFAULT_CONFIG : list (string * yaml) :=
  [("steps_directory", YStr "steps");
   ("solution_directory", YStr "solution");
   ("max_retries", YInt 5);
   ("openai_model", YStr "gpt-4");
   ("log_file", YStr "pipeline.log");
   ("log_level", YStr "INFO");
   ("remote_servers", YList [default_server])].

(** [for key, value in DEFAULT_CONFIG.items(): config.setdefault(key, value)]. *)
Fixpoint set_defaults (defaults config : list (string * yaml))
  : list (string * yaml) :=
  match defaults with
  | [] => config
  | (k, v) :: rest => set_defaults rest (setdefault k v config)
  end.

(** [load_config], lines 32-42: [file] is [None] when the path does not
    exist (the defaults are then written to it and returned), otherwise
    what [yaml.safe_load] made of it (a file that is not YAML makes it
    raise, and [load_config] with it).  The result is [None] when the loaded
    value is truthy and not a mapping: [setdefault] then raises
    [AttributeError]. *)
Definition load_config (file : option yaml) : option (list (string * yaml)) :=
  match file with
  | None => Some DEFAULT_CONFIG
  | Some loaded =>
      match (if yaml_truthy loaded then loaded else YDict []) with
      | YDict config => Some (set_defaults DEFAULT_CONFIG config)
      | _ => None
      end
  end.

(** The [isinstance] tests of [validate_config]. *)
Definition is_str (y : yaml) : bool :=
  match y with YStr _ => true | _ => false end.

(** [isinstance(x, int)]: [bool] is a subclass of [int]. *)
Definition is_int (y : yaml) : bool :=
  match y with YInt _ | YBool _ => true | _ => false end.

Definition is_bool (y : yaml) : bool :=
  match y with YBool _ => true | _ => false end.

Definition is_list (y : yaml) : bool :=
  match y with YList _ => true | _ => false end.

Definition is_str_or_none (y : yaml) : bool :=
  match y with YStr _ | YNone => true | _ => false end.

(** How [validate_config] ends: normally, or with the exception raised. *)
Inductive verdict_of_validation :=
| Valid
| ValueError (message : string)
| AttributeError.

(** A sequence of [if not isinstance(...): raise ValueError(...)]. *)
Fixpoint first_failure (checks : list (bool * string)) : verdict_of_validation :=
  match checks with
  | [] => Valid
  | (ok, message) :: rest => if ok then first_failure rest else ValueError message
  end.

(** The body of [for server in ...], lines 60-73; [server.get] exists only
    on a mapping. *)
Definition validate_server (server : yaml) : verdict_of_validation :=
  match server with
  | YDict d =>
      first_failure
        [(is_str (dict_get "hostname" d),
          "hostname in remote_servers must be a string.");
         (is_int (dict_get "port" d),
          "port in remote_servers must be an integer.");
         (is_str (dict_get "username" d),
          "username in remote_servers must be a string.");
         (is_str_or_none (dict_get "password" d),
          "password in remote_servers must be a string or None.");
         (is_str (dict_get "ssh_key_path" d),
          "ssh_key_path in remote_servers must be a string.");
         (is_bool (dict_get "execute_remotely" d),
          "execute_remotely in remote_servers must be a boolean.");
         (is_list (dict_get "steps_to_execute" d),
          "steps_to_execute in remote_servers must be a list.")]
  | _ => AttributeError
  end.

(** The loop of lines 59-73: the first server that fails ends it. *)
Fixpoint validate_servers (servers : list yaml) : verdict_of_validation :=
  match servers with
  | [] => Valid
  | server :: rest =>
      match validate_server server with
      | Valid => validate_servers rest
      | failure => failure
      end
  end.

(** [validate_config], lines 44-73. *)
Definition validate_config (config : list (string * yaml)) : verdict_of_validation :=
  match first_failure
          [(is_str (dict_get "steps_directory" config),
            "steps_directory must be a string.");
           (is_str (dict_get "solution_directory" config),
            "solution_directory must be a string.");
           (is_int (dict_get "max_retries" config),
            "max_retries must be an integer.");
           (is_str (dict_get "openai_model" config),
            "openai_model must be a string.");
           (is_str (dict_get "log_file" config),
            "log_file must be a string.");
           (is_str (dict_get "log_level" config),
            "log_level must be a string.");
           (is_list (dict_get "remote_servers" config),
            "remote_servers must be a list.")] with
  | Valid =>
      match dict_get "remote_servers" config with
      | YList servers => validate_servers servers
      | _ => Valid
      end
  | failure => failure
  end.

(** A file that sets one key and gives another a null value, and one with
    a value of the wrong type. *)
Definition user_file : yaml :=
  YDict [("max_retries", YInt 2); ("log_level", YNone)].

Definition wrong_file : list (string * yaml) :=
  [("comment", YStr "nightly"); ("max_retries", YStr "many")].

(** ** main_pipeline.py: [load_plan] *)

(** [content.split('---')]: the pieces between the non-overlapping
    occurrences of the delimiter, found from the left.  [skip] counts the
    characters of a delimiter still to pass. *)
Fixpoint split_go (skip : nat) (cur s : string) : list string :=
  match s with
  | EmptyString => [cur]
  | String c r =>
      match skip with
      | S k => split_go k cur r
      | O =>
          match strip_prefix "---" s with
          | Some _ => cur :: split_go 2 EmptyString r
          | None => split_go 0 (cur +:+ String c EmptyString) r
          end
      end
  end.

Definition split_dashes (content : string) : list string :=
  split_go 0 EmptyString content.

(** [step.rstrip(':')]. *)
Fixpoint rstrip_colon (s : string) : string :=
  match s with
  | EmptyString => EmptyString
  | String c r =>
      match rstrip_colon r with
      | EmptyString => if Ascii.eqb c ":"%char then EmptyString else String c EmptyString
      | r' => String c r'
      end
  end.

(** [plan[section_title] = cleaned_steps] on a dict kept as the list of
    its items: an existing key keeps its place and takes the new value, a
    new key goes to the end. *)
Fixpoint plan_set (k : string) (v : list string) (plan : list (string * list string))
  : list (string * list string) :=
  match plan with
  | [] => [(k, v)]
  | (k', v') :: rest =>
      if String.eqb k k' then (k, v) :: rest else (k', v') :: plan_set k v rest
  end.

(** [plan.get(k)]. *)
Fixpoint plan_get (k : string) (plan : list (string * list string))
  : option (list string) :=
  match plan with
  | [] => None
  | (k', v) :: rest => if String.eqb k k' then Some v else plan_get k rest
  end.

Section Plan.

(** The two regular expressions of [load_plan]:
    [section_pattern.search(section)] with its group 1, and
    [step_pattern.findall(section)]. *)
Variable section_pattern_search : string -> option string.
Variable step_pattern_findall : string -> list string.

(** What one section has to say: its title and its cleaned steps. *)
Definition section_entry (section : string) : option (string * list string) :=
  match section_pattern_search section with
  | Some group1 =>
      let section_title := strip group1 in
      match step_pattern_findall section with
      | [] => None
      | steps => Some (section_title, map (fun step => rstrip_colon (strip step)) steps)
      end
  | None => None
  end.

(** The body of the loop of lines 42-54. *)
Definition add_section (plan : list (string * list string)) (section : string)
  : list (string * list string) :=
  match section_entry section with
  | Some (section_title, cleaned_steps) => plan_set section_title cleaned_steps plan
  | None => plan
  end.

(** [load_plan], lines 22-59.  [None] is [sys.exit(1)]; the argument is
    the text of the plan file, [None] when it cannot be read. *)
Definition load_plan (file : option string) : option (list (string * list string)) :=
  match file with
  | None => None
  | Some content =>
      match fold_left add_section (split_dashes content) [] with
      | [] => None
      | plan => Some plan
      end
  end.

End Plan.

(** Titles in the order of their first occurrence. *)
Fixpoint first_occurrences (seen l : list string) : list string :=
  match l with
  | [] => []
  | k :: rest =>
      if existsb (String.eqb k) seen then first_occurrences seen rest
      else k :: first_occurrences (k :: seen) rest
  end.

(** Two regular expressions given by a table, for closed examples. *)
Definition sample_title (section : string) : option string :=
  if String.eqb section "A1"
  then Some " Setup " else
  if String.eqb section "B"
  then Some "Build" else
  if String.eqb section "A2"
  then Some "Setup" else
  if String.eqb section "E"
  then Some "Empty" else
  if String.eqb section "A3"
  then Some "Setup" else None.

Definition sample_steps (section : string) : list string :=
  if String.eqb section "A1"
  then ["load"; "clean"] else
  if String.eqb section "B"
  then ["compile:"] else
  if String.eqb section "A2"
  then [" fetch "] else [].

Definition sample_plan_text : string := "A1---B---E---x---A2".

(** The last section titled Setup has no step. *)
Definition sample_plan_late : string := "A1---B---A3".

(** ** docker_manager.py

    The Docker daemon, as far as [run_container] and [cleanup_container]
    can tell: the names of the containers that exist. *)
Record Daemon := mkDaemon {
  container_names : gset string
}.

(** What the calls to the daemon can come back with besides their normal
    result: an exception with its text ([get_raises] is for the exceptions
    of [containers.get] other than [NotFound]), and what the container
    reports when it has run: the dict of [wait], with or without a
    [StatusCode], and the logs. *)
Record DockerFaults := mkFaults {
  get_raises : option string;
  remove_raises : option string;
  run_raises : option string;
  wait_raises : option string;
  logs_raises : option string;
  status_code : option Z;
  container_logs : string
}.

Definition conflict : string := "Conflict. The container name is already in use.".

(** [containers.get(name)] followed by [remove(force=True)], as both
    methods do it: [inr] is an exception that is not [NotFound]. *)
Definition remove_existing (container_name : string) (faults : DockerFaults)
  (d : Daemon) : Daemon + string :=
  match get_raises faults with
  | Some e => inr e
  | None =>
      if decide (container_name ∈ container_names d) then
        match remove_raises faults with
        | Some e => inr e
        | None => inl (mkDaemon (container_names d ∖ {[container_name]}))
        end
      else inl d
  end.

(** [containers.run(image, name=..., detach=True)]: a name can be used
    once, the daemon refuses a name that is taken. *)
Definition containers_run (container_name : string) (faults : DockerFaults)
  (d : Daemon) : Daemon + string :=
  if decide (container_name ∈ container_names d) then inr conflict
  else
    match run_raises faults with
    | Some e => inr e
    | None => inl (mkDaemon ({[container_name]} ∪ container_names d))
    end.

(** [run_container], lines 103-151.  Both handlers return [False] and the
    text of the exception. *)
Definition run_container (container_name : string) (faults : DockerFaults)
  (d : Daemon) : (bool * string) * Daemon :=
  match remove_existing container_name faults d with
  | inr e => ((false, e), d)
  | inl d1 =>
      match containers_run container_name faults d1 with
      | inr e => ((false, e), d1)
      | inl d2 =>
          match wait_raises faults with
          | Some e => ((false, e), d2)
          | None =>
              match logs_raises faults with
              | Some e => ((false, e), d2)
              | None =>
                  let return_code :=
                    match status_code faults with
                    | Some c => c
                    | None => 1%Z
                    end in
                  ((Z.eqb return_code 0, container_logs faults), d2)
              end
          end
      end
  end.

(** [cleanup_container], lines 153-164: every exception is logged and
    swallowed. *)
Definition cleanup_container (container_name : string) (faults : DockerFaults)
  (d : Daemon) : Daemon :=
  match remove_existing container_name faults d with
  | inl d1 => d1
  | inr _ => d
  end.

(** A daemon that raises nothing. *)
Definition no_faults (code : option Z) (logs : string) : DockerFaults :=
  mkFaults None None None None None code logs.

(** No call to the daemon raises. *)
Definition quiet_daemon (faults : DockerFaults) : Prop :=
  get_raises faults = None /\ remove_raises faults = None
  /\ run_raises faults = None /\ wait_raises faults = None
  /\ logs_raises faults = None.

(** Calls of [transfer_solution_to_remote]. *)
Definition is_transfer (e : event) : bool :=
  match e with
  | EvTransfer _ _ => true
  | _ => false
  end.

(** The servers the solution was sent to, in order. *)
Definition transfers (evs : list event) : list Server :=
  flat_map (fun e => match e with
                     | EvTransfer server _ => [server]
                     | _ => []
                     end) evs.

(** The test of line 170. *)
Definition deployable (server : Server) : bool :=
  execute_remotely server
  && match steps_to_execute server with [] => false | _ => true end.

(** A computation that transfers nothing. *)
Definition quiet_m {A} (m : M A) : Prop :=
  forall s, transfers (events_of (m s)) = [].

(** A computation that leaves no record and no file changed. *)
Definition silent_m {A} (m : M A) : Prop :=
  forall s, events_of (m s) = [] /\ files (sys_of (m s)) = files s.

(** The file an operation of the pipeline is about, when it is about one:
    a run, a read back and a rewrite name their path. *)
Definition addresses (p : string) (e : event) : Prop :=
  match e with
  | EvRun q _ _ _ => q = p
  | EvRead q _ => q = p
  | EvUpdate q _ _ => q = p
  | _ => True
  end.


(** A server that lists step 2 and has [execute_remotely] off. *)
Definition server_off : Server :=
  {| hostname := "off.example"; port := 22; username := "user";
     password := None; ssh_key_path := "/app/.ssh/id_rsa";
     execute_remotely := false; steps_to_execute := [2] |}.

(** What the backend of [run_step] answers for [target]: the remote branch
    of lines 141-155 or the local one of lines 157-171. *)
Definition backend_answer (env : Env) (step_path : string)
  (target : option Server) (s : Sys) : bool * string :=
  result_of (match target with
             | Some server => run_remote env step_path server s
             | None => run_local env step_path s
             end).

(** A server with [execute_remotely] on and no step of its own. *)
Definition server_idle : Server :=
  {| hostname := "idle.example"; port := 22; username := "user";
     password := None; ssh_key_path := "/app/.ssh/id_rsa";
     execute_remotely := true; steps_to_execute := [] |}.

(** Where [transfer_solution_to_remote] puts a file of the solution. *)
Definition remote_path_of (env : Env) (solution_dir : string) (server : Server)
  (local_path : string) : string :=
  backslashes_to_slashes
    (path_join ("/home/" +:+ username server +:+ "/solution")
       (os_path_relpath env local_path solution_dir)).

(** ** Lemmas on the model *)

Ltac run_m := unfold bind, ret, emit, ask, get_files, put_file; simpl.

Lemma request_loop_spec env k req s :
  exists reply s' j,
    request_loop env k req s = (reply, s', repeat (EvSleep 10) j)
    /\ files s' = files s.
Proof.
  revert s; induction k as [|k IH]; intros s; simpl.
  - exists None, s, 0. split; reflexivity.
  - run_m. destruct (completions_create env (clock s) req).
    + eexists _, _, 0. split; reflexivity.
    + destruct (IH (mkSys (files s) (S (clock s)))) as (reply & s' & j & E & F).
      rewrite E. exists reply, s', (S j). split; [reflexivity | exact F].
    + eexists _, _, 0. split; reflexivity.
Qed.

Lemma fix_code_spec env err code n pd s :
  exists reply s' j,
    fix_code_with_gpt4 env err code n pd s
    = (reply, s', repeat (EvSleep 10) j ++ [EvFix n reply])
    /\ files s' = files s.
Proof.
  unfold fix_code_with_gpt4.
  destruct (request_loop_spec env 3 (FixReq err code n pd) s) as (reply & s' & j & E & F).
  exists reply, s', j. unfold bind at 1. rewrite E. run_m. 
  split; [reflexivity | exact F].
Qed.

Lemma run_step_spec env p er sc s :
  exists ok text s',
    run_step env p er sc s = ((ok, text), s', [EvRun p (remote_target er sc) ok text])
    /\ files s' = files s.
Proof.
  unfold run_step. destruct (remote_target er sc) as [server|].
  - unfold run_remote, establish_connection, transfer_file, execute_command.
    run_m.
    repeat match goal with
           | |- context [if ?b then _ else _] => destruct b; simpl
           | |- context [match ?x with Streams _ _ _ => _ | ExecRaised _ => _ end] => destruct x; simpl
           end;
    eexists _, _, _; split; reflexivity.
  - unfold run_local. run_m.
    destruct (subprocess_run _ _ _ _) as [rc out err|]; simpl.
    + destruct (Z.eqb rc 0); eexists _, _, _; split; reflexivity.
    + eexists _, _, _; split; reflexivity.
Qed.

Lemma truthy_false s : truthy s = false -> s = "".
Proof. destruct s; [reflexivity | discriminate]. Qed.

Lemma get_step_code_spec env p s :
  exists text,
    get_step_code env p s
    = (text, mkSys (files s) (S (clock s)), [EvRead p text]).
Proof. unfold get_step_code. run_m. eexists. reflexivity. Qed.

Lemma update_step_code_spec env p c s :
  exists ok,
    update_step_code env p c s
    = (tt, mkSys (if ok : bool then <[p:=c]> (files s) else files s) (S (clock s)),
       [EvUpdate p c ok]).
Proof.
  unfold update_step_code. run_m.
  destruct (open_for_write env (clock s) p); simpl; [exists true | exists false]; reflexivity.
Qed.

Lemma repair_loop_attempts env budget p n pd er sc s :
  exists x s' evs,
    repair_loop env budget p n pd er sc s = (x, s', evs)
    /\ attempts p (remote_target er sc) n budget (files s) x evs (files s').
Proof.
  revert s; induction budget as [|b IH]; intros s; simpl.
  - eexists _, _, _. split; [reflexivity | constructor].
  - unfold bind at 1.
    destruct (run_step_spec env p er sc s) as (ok & text & s1 & E1 & F1).
    rewrite E1; simpl. destruct ok; simpl.
    + eexists _, _, _. split; [reflexivity |]. rewrite F1. constructor.
    + unfold bind at 1.
      destruct (get_step_code_spec env p s1) as (code & E2). rewrite E2; simpl.
      destruct (truthy code) eqn:Hc; simpl.
      * unfold bind at 1.
        set (s2 := mkSys (files s1) (S (clock s1))).
        destruct (fix_code_spec env text code n pd s2) as (reply & s3 & j & E3 & F3).
        rewrite E3; simpl.
        destruct reply as [c|]; [destruct (truthy c) eqn:Ht|]; simpl.
        -- unfold bind at 1.
           destruct (update_step_code_spec env p c s3) as (ok & E4). rewrite E4; simpl.
           unfold bind at 1. simpl.
           set (s4 := mkSys _ _).
           destruct (IH s4) as (x & s5 & evs & E5 & A5). rewrite E5.
           eexists _, _, _. split; [reflexivity |].
           rewrite <- app_assoc. simpl.
           apply attempts_retry; auto.
           subst s4; simpl in A5, F3. rewrite F3, F1 in A5. exact A5.
        -- eexists _, _, _. split; [reflexivity |].
           simpl in F3. rewrite F3, F1, app_nil_r.
           apply attempts_no_fix; auto.
        -- eexists _, _, _. split; [reflexivity |].
           simpl in F3. rewrite F3, F1, app_nil_r.
           apply attempts_no_fix; auto.
      * apply truthy_false in Hc. subst code.
        eexists _, _, _. split; [reflexivity |]. simpl. rewrite F1. constructor.
Qed.

Lemma count_app f l1 l2 : count f (l1 ++ l2) = count f l1 + count f l2.
Proof. unfold count. rewrite List.filter_app, length_app. reflexivity. Qed.

Lemma count_sleeps f j k : f (EvSleep k) = false -> count f (repeat (EvSleep k) j) = 0.
Proof.
  intros H. induction j as [|j IH]; [reflexivity|].
  unfold count in *. simpl. rewrite H. exact IH.
Qed.

Lemma split_in_app {A} (pre : list A) e post l1 l2 :
  pre ++ e :: post = l1 ++ l2 ->
  (exists post1, l1 = pre ++ e :: post1 /\ post = post1 ++ l2)
  \/ (exists pre2, pre = l1 ++ pre2 /\ l2 = pre2 ++ e :: post).
Proof.
  revert pre. induction l1 as [|a l1 IH]; intros pre H; simpl in *.
  - right. exists pre. split; [reflexivity | symmetry; exact H].
  - destruct pre as [|b pre]; simpl in *.
    + inversion H; subst. left. exists l1. split; reflexivity.
    + inversion H; subst. destruct (IH pre H2) as [(post1 & -> & ->) | (pre2 & -> & ->)].
      * left. exists post1. split; reflexivity.
      * right. exists pre2. split; reflexivity.
Qed.

Lemma split_past {A} (P : A -> Prop) (pre : list A) e post l1 l2 :
  pre ++ e :: post = l1 ++ l2 -> Forall P l1 -> ~ P e ->
  exists pre2, pre = l1 ++ pre2 /\ l2 = pre2 ++ e :: post.
Proof.
  intros H HF Hn. destruct (split_in_app _ _ _ _ _ H) as [(post1 & -> & _) | Hr]; [|exact Hr].
  exfalso. apply Hn. rewrite List.Forall_forall in HF. apply HF.
  apply in_or_app. right. left. reflexivity.
Qed.

Lemma sleeps_no_verdict j k : Forall (fun e => verdict e = None) (repeat (EvSleep k) j).
Proof. induction j; simpl; constructor; auto. Qed.

Lemma attempts_verdict p tg n b fs x evs fs' :
  attempts p tg n b fs x evs fs' ->
  forall pre e post y,
    evs = pre ++ e :: post -> verdict e = Some y -> post = [] /\ x = y.
Proof.
  induction 1 as [fs | b fs out | b fs err | b fs err code j reply Hc Hr
                 | b fs err code j c ok x evs fs' Hc Ht _ IH];
    intros pre e post y E V.
  - destruct pre; discriminate.
  - destruct pre as [|? [|? ?]]; inversion E; subst. simpl in V. inversion V. auto.
  - destruct pre as [|? [|? [|? ?]]]; inversion E; subst; simpl in V; try discriminate.
    inversion V. auto.
  - rewrite 2 app_comm_cons in E. symmetry in E.
    destruct (split_past (fun e => verdict e = None) _ _ _ _ _ E) as (pre2 & -> & E2).
    + constructor; [reflexivity|]. constructor; [simpl; rewrite Hc; reflexivity|].
      apply sleeps_no_verdict.
    + rewrite V. discriminate.
    + destruct pre2 as [|? [|? ?]]; inversion E2; subst. simpl in V. rewrite Hr in V.
      inversion V. auto.
  - rewrite app_assoc, 2 app_comm_cons in E. symmetry in E.
    destruct (split_past (fun e => verdict e = None) _ _ _ _ _ E) as (pre2 & -> & E2).
    + constructor; [reflexivity|]. constructor; [simpl; rewrite Hc; reflexivity|].
      apply Forall_app. split; [apply sleeps_no_verdict|].
      repeat constructor. simpl. rewrite Ht. reflexivity.
    + rewrite V. discriminate.
    + eapply IH; eauto.
Qed.

Lemma count_cons f e l : count f (e :: l) = (if f e then 1 else 0) + count f l.
Proof. unfold count. simpl. destruct (f e); reflexivity. Qed.

Lemma count_retry f p tg n err code j c ok evs :
  count f (EvRun p tg false err :: EvRead p code :: repeat (EvSleep 10) j
             ++ [EvFix n (Some c); EvUpdate p c ok; EvSleep 2] ++ evs)
  = (if f (EvRun p tg false err) then 1 else 0)
    + (if f (EvRead p code) then 1 else 0)
    + j * (if f (EvSleep 10) then 1 else 0)
    + (if f (EvFix n (Some c)) then 1 else 0)
    + (if f (EvUpdate p c ok) then 1 else 0)
    + (if f (EvSleep 2) then 1 else 0)
    + count f evs.
Proof.
  rewrite 2 count_cons, count_app. simpl app. rewrite 3 count_cons.
  assert (count f (repeat (EvSleep 10) j) = j * (if f (EvSleep 10) then 1 else 0)) as ->.
  { induction j as [|j IH]; [reflexivity|]. simpl repeat. rewrite count_cons, IH. lia. }
  lia.
Qed.

Lemma attempts_bound p tg n b fs x evs fs' :
  attempts p tg n b fs x evs fs' -> executions evs <= b.
Proof.
  unfold executions.
  induction 1; try (rewrite count_retry; simpl; lia); try (cbn; lia).
  rewrite 2 count_cons, count_app, count_sleeps by reflexivity. cbn. lia.
Qed.

Lemma filter_sleeps (f : event -> bool) j k :
  f (EvSleep k) = false -> List.filter f (repeat (EvSleep k) j) = [].
Proof. intros H. induction j; simpl; [|rewrite H]; auto. Qed.

Lemma attempts_exhausted_counts p tg n b fs evs fs' :
  attempts p tg n b fs ExitMaxRetries evs fs' ->
  executions evs = b /\ oracle_calls evs = b /\ updates evs = b
  /\ Forall run_failed evs /\ run_fix_pattern evs = alternation b.
Proof.
  unfold executions, oracle_calls, updates.
  remember ExitMaxRetries as x eqn:Hx.
  induction 1 as [fs | | | | b fs err code j c ok x evs fs' Hc Ht _ IH]; try discriminate.
  - repeat split; constructor.
  - specialize (IH Hx). destruct IH as (I1 & I2 & I3 & I4 & I5).
    rewrite !count_retry. simpl. repeat split; try lia.
    + constructor; [reflexivity|]. constructor; [exact I|].
      apply Forall_app. split.
      * clear. induction j; simpl; constructor; auto. exact I.
      * repeat constructor. exact I4.
    + unfold run_fix_pattern in *. simpl.
      rewrite List.filter_app, filter_sleeps by reflexivity. simpl.
      rewrite I5. reflexivity.
Qed.

Lemma attempts_exhausted_tail p tg n b fs evs fs' :
  attempts p tg n (S b) fs ExitMaxRetries evs fs' ->
  exists pre c ok,
    evs = pre ++ [EvFix n (Some c); EvUpdate p c ok; EvSleep 2]
    /\ (ok = true -> fs' !! p = Some c).
Proof.
  remember ExitMaxRetries as x eqn:Hx. remember (S b) as b1 eqn:Hb.
  intros H. revert b Hb.
  induction H as [fs | | | | b0 fs err code j c ok x evs fs' Hc Ht H IH];
    intros k Hb; try discriminate.
  subst x. inversion Hb; subst b0; clear Hb.
  destruct k as [|b].
  - inversion H; subst.
    exists (EvRun p tg false err :: EvRead p code :: repeat (EvSleep 10) j), c, ok.
    split.
    + rewrite app_nil_r. reflexivity.
    + intros ->. apply lookup_insert_eq.
  - destruct (IH eq_refl b eq_refl) as (pre & c' & ok' & -> & Hl).
    exists (EvRun p tg false err :: EvRead p code :: repeat (EvSleep 10) j
              ++ [EvFix n (Some c); EvUpdate p c ok; EvSleep 2] ++ pre), c', ok'.
    split; [|assumption].
    simpl. rewrite <- !app_assoc. reflexivity.
Qed.

Lemma attempts_no_verdict p tg n b fs x evs fs' :
  attempts p tg n b fs x evs fs' ->
  Forall (fun e => verdict e = None) evs -> x = ExitMaxRetries.
Proof.
  induction 1 as [fs | b fs out | b fs err | b fs err code j reply Hc Hr
                 | b fs err code j c ok x evs fs' Hc Ht _ IH]; intros HF.
  - reflexivity.
  - inversion HF; subst. discriminate.
  - inversion HF as [|? ? _ HF']; subst. inversion HF'; subst. discriminate.
  - rewrite 2 app_comm_cons in HF. apply Forall_app in HF. destruct HF as [_ HF].
    inversion HF; subst. simpl in *. rewrite Hr in *. discriminate.
  - apply IH. rewrite app_assoc, 2 app_comm_cons in HF.
    apply Forall_app in HF. tauto.
Qed.

Lemma hypotheses_no_verdict evs :
  Forall run_failed evs -> Forall fix_usable evs -> Forall read_nonempty evs ->
  Forall (fun e => verdict e = None) evs.
Proof.
  induction evs as [|e evs IH]; intros H1 H2 H3; constructor.
  - inversion H1; inversion H2; inversion H3; subst.
    destruct e; simpl in *; try reflexivity.
    + subst. reflexivity.
    + rewrite H12. reflexivity.
    + rewrite H8. reflexivity.
  - inversion H1; inversion H2; inversion H3; subst. auto.
Qed.

Lemma generate_step_code_spec env d pd n s :
  exists reply s' j,
    generate_step_code env d pd n s
    = (reply, s', repeat (EvSleep 10) j ++ [EvGenerate n reply]).
Proof.
  unfold generate_step_code.
  destruct (request_loop_spec env 3 (GenerateReq d pd n) s) as (reply & s' & j & E & F).
  exists reply, s', j. unfold bind at 1. rewrite E. run_m. reflexivity.
Qed.

Lemma save_step_code_spec env config n code s :
  exists saved s',
    save_step_code env config n code s = (saved, s', [EvSave n code saved])
    /\ (saved = None \/ saved = Some (step_file config n)).
Proof.
  unfold save_step_code. run_m.
  destruct (open_for_write env (clock s) _); simpl; eexists _, _; split; eauto.
Qed.

Lemma execute_and_fix_step_attempts env p n pd mr er sc s :
  exists x s' evs,
    execute_and_fix_step env p n pd mr er sc s = (exit_ok x, s', evs)
    /\ execute_and_fix_exit env p n pd mr er sc s = (x, s', evs)
    /\ attempts p (remote_target er sc) n (Z.to_nat mr) (files s) x evs (files s').
Proof.
  unfold execute_and_fix_step, execute_and_fix_exit.
  destruct (repair_loop_attempts env (Z.to_nat mr) p n pd er sc s) as (x & s' & evs & E & A).
  exists x, s', evs. unfold bind. rewrite E. simpl. rewrite app_nil_r. auto.
Qed.

Lemma process_step_visit ast_parse env config step pd n s :
  exists res s' evs,
    process_step ast_parse env config step pd n s = (res, s', evs)
    /\ visit ast_parse config n step res evs.
Proof.
  unfold process_step. unfold bind at 1.
  destruct (generate_step_code_spec env step pd n s) as (reply & s1 & j & E1).
  rewrite E1. destruct (usable reply) eqn:Hu; simpl.
  - destruct reply as [code|]; [|discriminate]. simpl in Hu. simpl default.
    unfold bind at 1.
    destruct (save_step_code_spec env config n (add_main_block ast_parse code n) s1)
      as (saved & s2 & E2 & [-> | ->]); rewrite E2.
    + unfold visit_done. run_m. eexists _, _, _. split; [reflexivity|].
      rewrite <- app_assoc. apply visit_save_failed. exact Hu.
    + destruct (usable (extract_class_name _ _)) eqn:Hx; simpl.
      * destruct (select_backend (remote_servers config) n) as [er sc] eqn:Hs.
        unfold bind at 1.
        destruct (execute_and_fix_step_attempts env (step_file config n) n pd
                    (max_retries config) er sc s2) as (x & s3 & evs & E3 & _ & A3).
        rewrite E3.
        assert (remote_target er sc = chosen_target config n) as Ht
            by (unfold chosen_target; rewrite Hs; reflexivity).
        rewrite Ht in A3.
        pose proof (visit_executed ast_parse config n step j code _ x evs _ Hu Hx A3) as V.
        unfold visit_done. run_m.
        destruct (exit_ok x); simpl; eexists _, _, _; (split; [reflexivity|]);
          rewrite <- ?app_assoc; simpl; rewrite <- ?app_assoc; exact V.
      * unfold visit_done. run_m. eexists _, _, _. split; [reflexivity|].
        rewrite <- app_assoc. apply visit_extraction_failed; assumption.
  - unfold visit_done. run_m. eexists _, _, _. split; [reflexivity|].
    rewrite <- app_assoc. apply visit_generation_failed. exact Hu.
Qed.

Lemma visits_app ast_parse config c l1 e1 l2 e2 :
  visits ast_parse config c l1 e1 ->
  visits ast_parse config (c + length l1) l2 e2 ->
  visits ast_parse config c (l1 ++ l2) (e1 ++ e2).
Proof.
  induction 1 as [c | c step rest res evs evs' V _ IH]; intros H2; simpl in *.
  - rewrite Nat.add_0_r in H2. exact H2.
  - rewrite <- app_assoc. econstructor; [exact V|]. apply IH.
    rewrite Nat.add_succ_r in H2. exact H2.
Qed.

Lemma process_section_visits ast_parse env config steps pd c ex s :
  exists ex' s' evs,
    process_section ast_parse env config steps pd c ex s
    = ((c + length steps, ex'), s', evs)
    /\ visits ast_parse config c steps evs.
Proof.
  revert c ex s. induction steps as [|step rest IH]; intros c ex s; simpl.
  - rewrite Nat.add_0_r. eexists _, _, _. split; [reflexivity | constructor].
  - unfold bind at 1.
    destruct (process_step_visit ast_parse env config step pd c s) as (res & s1 & evs & E & V).
    rewrite E.
    destruct (IH (S c) (append_path ex res) s1) as (ex' & s' & evs' & E' & V').
    rewrite E'. replace (S c + length rest) with (c + S (length rest)) by lia.
    eexists _, _, _. split; [reflexivity|]. econstructor; eassumption.
Qed.

Lemma process_plan_visits ast_parse env config plan pd c ex s :
  exists ex' s' evs,
    process_plan ast_parse env config plan pd c ex s
    = ((c + length (concat (map snd plan)), ex'), s', evs)
    /\ visits ast_parse config c (concat (map snd plan)) evs.
Proof.
  revert c ex s. induction plan as [|[title steps] rest IH]; intros c ex s; simpl.
  - rewrite Nat.add_0_r. eexists _, _, _. split; [reflexivity | constructor].
  - unfold bind at 1.
    destruct (process_section_visits ast_parse env config steps pd c ex s)
      as (ex1 & s1 & evs1 & E1 & V1).
    rewrite E1. simpl.
    destruct (IH (c + length steps) ex1 s1) as (ex' & s' & evs' & E' & V').
    rewrite E'. rewrite length_app, Nat.add_assoc.
    eexists _, _, _. split; [reflexivity|]. apply visits_app; assumption.
Qed.

Lemma process_steps_visits ast_parse env config plan pd s :
  exists ex s' evs,
    process_steps ast_parse env config plan pd s = (ex, s', evs)
    /\ visits ast_parse config 1 (concat (map snd plan)) evs.
Proof.
  unfold process_steps.
  destruct (process_plan_visits ast_parse env config plan pd 1 [] s) as (ex & s' & evs & E & V).
  unfold bind. rewrite E. simpl. rewrite app_nil_r. eauto.
Qed.

Lemma visited_app l1 l2 : visited (l1 ++ l2) = visited l1 ++ visited l2.
Proof. unfold visited. apply flat_map_app. Qed.

Lemma visited_sleeps j k : visited (repeat (EvSleep k) j) = [].
Proof. induction j; simpl; auto. Qed.

Lemma attempts_visited p tg n b fs x evs fs' :
  attempts p tg n b fs x evs fs' -> visited evs = [].
Proof.
  induction 1; try reflexivity.
  - simpl. rewrite visited_app, visited_sleeps. reflexivity.
  - simpl. rewrite visited_app, visited_sleeps. simpl. assumption.
Qed.

Lemma visit_visited ast_parse config n step res evs :
  visit ast_parse config n step res evs -> visited evs = [(n, step)].
Proof.
  destruct 1; rewrite visited_app, visited_sleeps; simpl; try reflexivity.
  rewrite visited_app. erewrite attempts_visited by eassumption. reflexivity.
Qed.

Lemma visits_visited ast_parse config c steps evs :
  visits ast_parse config c steps evs ->
  visited evs = combine (seq c (length steps)) steps.
Proof.
  induction 1 as [c | c step rest res evs evs' V _ IH]; [reflexivity|].
  rewrite visited_app, (visit_visited _ _ _ _ _ _ V), IH. reflexivity.
Qed.

Lemma sleeps_no_empty_read j k :
  Forall (fun e => is_empty_read e = false) (repeat (EvSleep k) j).
Proof. induction j; simpl; constructor; auto. Qed.

Lemma visit_reads_local ast_parse config n step res evs :
  visit ast_parse config n step res evs -> reads_local evs.
Proof.
  intros V pre q post E. symmetry in E.
  destruct V as [j reply Hu | j code Hc | j code Hc Hx | j code fs x evs fs' Hc Hx A].
  1-3: exfalso;
    destruct (split_past (fun e => is_empty_read e = false) _ _ _ _ _ E
                (sleeps_no_empty_read _ _)) as (pre2 & _ & E2); [discriminate|];
    destruct pre2 as [|? [|? [|? [|? ?]]]]; inversion E2.
  destruct (split_past (fun e => is_empty_read e = false) _ _ _ _ _ E
              (sleeps_no_empty_read _ _)) as (pre2 & -> & E2); [discriminate|].
  destruct pre2 as [|e1 [|e2 pre3]]; simpl in E2; try discriminate.
  injection E2 as _ _ E3.
  symmetry in E3. apply split_in_app in E3.
  destruct E3 as [(post1 & E4 & ->) | (pre4 & -> & E4)].
  - destruct (attempts_verdict _ _ _ _ _ _ _ _ A _ _ _ ExitNoCode E4 eq_refl) as [-> ->].
    simpl. eexists _, _, _. reflexivity.
  - destruct pre4 as [|? [|? ?]]; inversion E4.
Qed.

Lemma visits_reads_local ast_parse config c steps evs :
  visits ast_parse config c steps evs -> reads_local evs.
Proof.
  induction 1 as [c | c step rest res evs evs' V _ IH]; intros pre q post E.
  - destruct pre; discriminate.
  - symmetry in E. apply split_in_app in E.
    destruct E as [(post1 & E1 & ->) | (pre2 & -> & E2)].
    + destruct (visit_reads_local _ _ _ _ _ _ V _ _ _ E1) as (n & d & post' & ->).
      eexists _, _, _. reflexivity.
    + eapply IH. exact E2.
Qed.

Lemma attempts_on_target p tg n b fs x evs fs' :
  attempts p tg n b fs x evs fs' -> Forall (on_target tg) evs.
Proof.
  assert (forall j, Forall (on_target tg) (repeat (EvSleep 10) j)) as Hs
      by (induction j; simpl; constructor; auto; exact I).
  induction 1.
  - constructor.
  - repeat constructor.
  - repeat constructor.
  - constructor; [reflexivity|]. constructor; [exact I|].
    apply Forall_app. split; [apply Hs | repeat constructor].
  - constructor; [reflexivity|]. constructor; [exact I|].
    apply Forall_app. split; [apply Hs|]. repeat constructor. assumption.
Qed.

Lemma visit_on_target ast_parse config n step res evs :
  visit ast_parse config n step res evs ->
  Forall (on_target (chosen_target config n)) evs.
Proof.
  assert (forall j tg, Forall (on_target tg) (repeat (EvSleep 10) j)) as Hs
      by (induction j; simpl; constructor; auto; exact I).
  destruct 1; apply Forall_app; (split; [apply Hs|]); repeat constructor.
  apply Forall_app. split; [eapply attempts_on_target; eassumption | repeat constructor].
Qed.

(** ** The execute-and-repair loop (C1, C3, C10) *)

(** C1 (as amended).  With a budget [max_retries >= 1]: when every run of
    the call fails, every oracle reply is a non-empty correction and every
    read-back of the artifact is non-empty, [execute_and_fix_step] returns
    [False] after exactly [max_retries] runs; in every case it runs the
    artifact at most [max_retries] times; and a run that succeeds is the
    last event of the call, which returns [True]. *)
Theorem retry_budget_is_exact env p n pd mr er sc s :
  (1 <= mr)%Z ->
  let r := execute_and_fix_step env p n pd mr er sc s in
  (Forall run_failed (events_of r) -> Forall fix_usable (events_of r) ->
   Forall read_nonempty (events_of r) ->
   result_of r = false /\ Z.of_nat (executions (events_of r)) = mr)
  /\ (Z.of_nat (executions (events_of r)) <= mr)%Z
  /\ (forall pre q tg out post,
        events_of r = pre ++ EvRun q tg true out :: post ->
        post = [] /\ result_of r = true).
Proof.
  intros Hmr r.
  destruct (execute_and_fix_step_attempts env p n pd mr er sc s)
    as (x & s' & evs & E & _ & A).
  subst r. rewrite E. unfold result_of, events_of. simpl.
  split; [|split].
  - intros H1 H2 H3.
    pose proof (attempts_no_verdict _ _ _ _ _ _ _ _ A
                  (hypotheses_no_verdict _ H1 H2 H3)) as ->.
    destruct (attempts_exhausted_counts _ _ _ _ _ _ _ A) as (Hc & _).
    split; [reflexivity|]. rewrite Hc. lia.
  - pose proof (attempts_bound _ _ _ _ _ _ _ _ A). lia.
  - intros pre q tg out post Hev.
    destruct (attempts_verdict _ _ _ _ _ _ _ _ A _ _ _ ExitSuccess Hev eq_refl)
      as [-> ->].
    split; reflexivity.
Qed.

Lemma retry_budget_is_exact_witness :
  let r := execute_and_fix_step env_stubborn path1 1 "problem" 3 false None sys_old in
  result_of r = false /\ Z.of_nat (executions (events_of r)) = 3%Z.
Proof.
  apply (retry_budget_is_exact env_stubborn path1 1 "problem" 3 false None sys_old).
  - lia.
  - vm_compute. repeat constructor.
  - vm_compute. repeat constructor.
  - vm_compute. repeat constructor.
Defined.

(** C1, as stated, fails: with a budget of two, runs that always fail and
    an oracle that always answers with a non-empty correction, an artifact
    that is not on disk (so that it reads back as the empty text) is run
    once, not twice, and the oracle is never asked. *)
Lemma missing_artifact_stops_before_budget :
  let r := execute_and_fix_step env_stubborn path1 1 "problem" 2 false None
             sys_empty in
  (forall t p c, exists err, subprocess_run env_stubborn t p c = Completed 1 "" err)
  /\ (forall t q, exists c, completions_create env_stubborn t q = ApiText c
                            /\ truthy (strip c) = true)
  /\ Forall run_failed (events_of r) /\ Forall fix_usable (events_of r)
  /\ events_of r = [EvRun path1 None false "Traceback"; EvRead path1 ""]
  /\ result_of r = false
  /\ Z.of_nat (executions (events_of r)) <> 2%Z.
Proof.
  repeat split.
  - intros. eexists. reflexivity.
  - intros. eexists. split; reflexivity.
  - vm_compute. repeat constructor.
  - vm_compute. repeat constructor.
  - vm_compute. discriminate.
Qed.

(** C3.  In [execute_and_fix_step], an oracle call that yields nothing or
    the empty text is the last event of the call, which returns [False]:
    no run, no oracle call, nothing at all follows it. *)
Theorem useless_correction_abandons_step env p n pd mr er sc s :
  let r := execute_and_fix_step env p n pd mr er sc s in
  forall pre m reply post,
    events_of r = pre ++ EvFix m reply :: post ->
    usable reply = false ->
    post = [] /\ result_of r = false
    /\ executions (events_of r) = executions pre
    /\ oracle_calls (events_of r) = S (oracle_calls pre).
Proof.
  intros r pre m reply post Hev Hu.
  destruct (execute_and_fix_step_attempts env p n pd mr er sc s)
    as (x & s' & evs & E & _ & A).
  subst r. rewrite E in *. unfold result_of, events_of in *. simpl in *.
  assert (verdict (EvFix m reply) = Some ExitNoFix) as V
      by (simpl; rewrite Hu; reflexivity).
  destruct (attempts_verdict _ _ _ _ _ _ _ _ A _ _ _ _ Hev V) as [-> ->].
  subst evs. unfold executions, oracle_calls.
  rewrite !count_app, !count_cons. simpl.
  split; [reflexivity|]. split; [reflexivity|].
  change (count is_run []) with 0. change (count is_fix []) with 0. lia.
Qed.

Lemma useless_correction_abandons_step_witness :
  let r := execute_and_fix_step env_no_oracle path1 1 "problem" 5 false None sys_old in
  result_of r = false /\ executions (events_of r) = 1.
Proof.
  destruct (useless_correction_abandons_step env_no_oracle path1 1 "problem" 5
              false None sys_old
              [EvRun path1 None false "Traceback"; EvRead path1 "print(1)"]
              1 None [])
    as (_ & Hr & Hx & _).
  - vm_compute. reflexivity.
  - reflexivity.
  - split; [exact Hr | rewrite Hx; reflexivity].
Defined.

(** C10 (as amended).  When [execute_and_fix_step] leaves by "Max retries
    exceeded" with a budget [max_retries >= 1], it has run the artifact,
    called the oracle and called [update_step_code] exactly [max_retries]
    times each, every run failed, runs and oracle calls alternate (an
    oracle call follows every run, the last one too), and the call ends
    by handing the last correction to [update_step_code], after which
    nothing is run; that correction is the text on disk when this last
    write succeeded. *)
Theorem exhausted_budget_last_correction env p n pd mr er sc s :
  (1 <= mr)%Z ->
  let r := execute_and_fix_exit env p n pd mr er sc s in
  result_of r = ExitMaxRetries ->
  Z.of_nat (executions (events_of r)) = mr
  /\ Z.of_nat (oracle_calls (events_of r)) = mr
  /\ Z.of_nat (updates (events_of r)) = mr
  /\ Forall run_failed (events_of r)
  /\ run_fix_pattern (events_of r) = alternation (Z.to_nat mr)
  /\ exists pre c ok,
       events_of r = pre ++ [EvFix n (Some c); EvUpdate p c ok; EvSleep 2]
       /\ (ok = true -> files (sys_of r) !! p = Some c).
Proof.
  intros Hmr r.
  destruct (execute_and_fix_step_attempts env p n pd mr er sc s)
    as (x & s' & evs & _ & E & A).
  subst r. rewrite E. unfold result_of, events_of, sys_of. simpl.
  intros ->.
  destruct (attempts_exhausted_counts _ _ _ _ _ _ _ A) as (H1 & H2 & H3 & H4 & H5).
  rewrite H1, H2, H3.
  repeat (split; [first [lia | assumption]|]).
  destruct (Z.to_nat mr) as [|b] eqn:Hb; [lia|].
  exact (attempts_exhausted_tail _ _ _ _ _ _ _ A).
Qed.

Lemma exhausted_budget_last_correction_witness :
  let r := execute_and_fix_exit env_stubborn path1 1 "problem" 2 false None sys_old in
  Z.of_nat (executions (events_of r)) = 2%Z
  /\ Z.of_nat (oracle_calls (events_of r)) = 2%Z
  /\ Z.of_nat (updates (events_of r)) = 2%Z
  /\ Forall run_failed (events_of r)
  /\ run_fix_pattern (events_of r) = alternation (Z.to_nat 2)
  /\ exists pre c ok,
       events_of r = pre ++ [EvFix 1 (Some c); EvUpdate path1 c ok; EvSleep 2]
       /\ (ok = true -> files (sys_of r) !! path1 = Some c).
Proof.
  apply (exhausted_budget_last_correction env_stubborn path1 1 "problem" 2
           false None sys_old).
  - lia.
  - vm_compute. reflexivity.
Defined.

(** C10, as stated, fails: when the file cannot be opened for writing the
    budget is exhausted all the same, the last correction was requested and
    handed to [update_step_code], but the text on disk is still the old
    one. *)
Lemma last_correction_not_on_disk :
  let r := execute_and_fix_exit env_readonly path1 1 "problem" 1 false None sys_old in
  result_of r = ExitMaxRetries
  /\ events_of r
     = [EvRun path1 None false "Traceback"; EvRead path1 "print(1)";
        EvFix 1 (Some "print(2)"); EvUpdate path1 "print(2)" false; EvSleep 2]
  /\ files (sys_of r) !! path1 = Some "print(1)"
  /\ files (sys_of r) !! path1 <> Some "print(2)".
Proof.
  split; [|split; [|split]].
  - vm_compute. reflexivity.
  - vm_compute. reflexivity.
  - vm_compute. reflexivity.
  - vm_compute. discriminate.
Qed.

(** ** One visit of the orchestrator (C2, C4) *)

Lemma count_none_sleeps_then f j l :
  f (EvSleep 10) = false ->
  count f (repeat (EvSleep 10) j ++ l) = count f l.
Proof. intros H. rewrite count_app, count_sleeps by exact H. reflexivity. Qed.

(** C2 (as amended).  In one visit of [process_steps]: when the oracle's
    text is missing or empty, or the normalized text has no top-level class
    definition (or does not parse), the step fails at once; [run_step] and
    the repair oracle are never called, no path is added to the executed
    steps, and the visit ends as a generation, save or extraction failure. *)
Theorem unusable_generation_skips_loop ast_parse env config step pd n s :
  let r := process_step ast_parse env config step pd n s in
  (forall reply,
      In (EvGenerate n reply) (events_of r) ->
      usable reply = false
      \/ usable (extract_class_name ast_parse
                   (add_main_block ast_parse (default "" reply) n)) = false) ->
  result_of r = None
  /\ executions (events_of r) = 0
  /\ oracle_calls (events_of r) = 0
  /\ exists pre o,
       events_of r = pre ++ [EvVisit n step o]
       /\ (o = GenerationFailed \/ o = SaveFailed \/ o = ExtractionFailed).
Proof.
  intros r.
  destruct (process_step_visit ast_parse env config step pd n s)
    as (res & s' & evs & E & V).
  subst r. rewrite E. unfold result_of, events_of. simpl. intros H.
  unfold executions, oracle_calls.
  destruct V as [j reply Hu | j code Hc | j code Hc Hx | j code fs x evs fs' Hc Hx A].
  - rewrite !count_none_sleeps_then by reflexivity.
    repeat split; try reflexivity.
    exists (repeat (EvSleep 10) j ++ [EvGenerate n reply]), GenerationFailed.
    rewrite <- app_assoc. auto.
  - rewrite !count_none_sleeps_then by reflexivity.
    repeat split; try reflexivity.
    eexists (repeat (EvSleep 10) j ++ [_; _]), SaveFailed.
    rewrite <- app_assoc. auto.
  - rewrite !count_none_sleeps_then by reflexivity.
    repeat split; try reflexivity.
    eexists (repeat (EvSleep 10) j ++ [_; _]), ExtractionFailed.
    rewrite <- app_assoc. auto.
  - exfalso.
    destruct (H (Some code)) as [Hf | Hf].
    + apply in_or_app. right. left. reflexivity.
    + simpl in Hf. congruence.
    + simpl in Hf. congruence.
Qed.

Lemma unusable_generation_skips_loop_witness :
  let r := process_step sample_parse env_print (sample_config 2 []) "first"
             "problem" 1 sys_empty in
  result_of r = None /\ executions (events_of r) = 0
  /\ oracle_calls (events_of r) = 0
  /\ exists pre o,
       events_of r = pre ++ [EvVisit 1 "first" o]
       /\ (o = GenerationFailed \/ o = SaveFailed \/ o = ExtractionFailed).
Proof.
  apply (unusable_generation_skips_loop sample_parse env_print
           (sample_config 2 []) "first" "problem" 1 sys_empty).
  intros reply. vm_compute.
  intros [H | [H | [H | []]]]; try discriminate H.
  injection H as <-. right. reflexivity.
Defined.

(** C2, as stated, fails: the text has no type named [Step1] and no
    [execute], yet the step is saved and enters the loop, where it is run
    twice and the repair oracle is called twice (the whole budget). *)
Lemma misnamed_class_enters_loop :
  let r := process_step sample_parse env_foo (sample_config 2 []) "first"
             "problem" 1 sys_empty in
  In (EvGenerate 1 (Some src_foo)) (events_of r)
  /\ spec_entry_contract sample_parse 1 src_foo = false
  /\ spec_entry_contract sample_parse 1 (add_main_block sample_parse src_foo 1)
     = false
  /\ executions (events_of r) = 2
  /\ oracle_calls (events_of r) = 2
  /\ In (EvVisit 1 "first" ExecutionFailed) (events_of r).
Proof.
  repeat split; vm_compute; auto 20.
Qed.

Lemma listed_iff n (l : list nat) : existsb (Nat.eqb n) l = true <-> In n l.
Proof.
  rewrite existsb_exists. split.
  - intros (x & Hx & Hn). apply Nat.eqb_eq in Hn. subst. exact Hx.
  - intros H. exists n. split; [exact H | apply Nat.eqb_refl].
Qed.

Lemma select_backend_first_match pre t post n :
  Forall (fun sv => ~ In n (steps_to_execute sv)) pre ->
  In n (steps_to_execute t) ->
  select_backend (pre ++ t :: post) n = (execute_remotely t, Some t).
Proof.
  intros Hpre Ht. induction Hpre as [|sv pre Hsv _ IH]; simpl.
  - apply listed_iff in Ht. rewrite Ht. reflexivity.
  - destruct (existsb (Nat.eqb n) (steps_to_execute sv)) eqn:E.
    + apply listed_iff in E. contradiction.
    + exact IH.
Qed.

Lemma select_backend_listed servers n er t :
  select_backend servers n = (er, Some t) -> In n (steps_to_execute t).
Proof.
  induction servers as [|sv rest IH]; simpl; [discriminate|].
  destruct (existsb (Nat.eqb n) (steps_to_execute sv)) eqn:E.
  - intros [= _ <-]. apply listed_iff. exact E.
  - exact IH.
Qed.

Lemma select_backend_none servers n :
  Forall (fun sv => ~ In n (steps_to_execute sv)) servers ->
  select_backend servers n = (false, None).
Proof.
  induction 1 as [|sv rest Hsv _ IH]; simpl; [reflexivity|].
  destruct (existsb (Nat.eqb n) (steps_to_execute sv)) eqn:E.
  - apply listed_iff in E. contradiction.
  - exact IH.
Qed.

Lemma run_step_answer env p er sc s :
  exists s',
    run_step env p er sc s
    = (backend_answer env p (remote_target er sc) s, s',
       [EvRun p (remote_target er sc)
          (fst (backend_answer env p (remote_target er sc) s))
          (snd (backend_answer env p (remote_target er sc) s))]).
Proof.
  destruct (run_step_spec env p er sc s) as (ok & text & s' & R & _).
  unfold run_step, backend_answer, result_of, bind, emit, ret in *. cbv zeta in *.
  destruct (remote_target er sc) as [server|].
  - destruct (run_remote env p server s) as [[r s1] e1].
    injection R as _ _ R. destruct e1 as [|e e1].
    + simpl. eexists. reflexivity.
    + simpl in R. injection R as _ R. destruct e1; discriminate R.
  - destruct (run_local env p s) as [[r s1] e1].
    injection R as _ _ R. destruct e1 as [|e e1].
    + simpl. eexists. reflexivity.
    + simpl in R. injection R as _ R. destruct e1; discriminate R.
Qed.

Lemma repair_loop_first_run env b p n pd er sc s :
  exists x s' post,
    repair_loop env (S b) p n pd er sc s
    = (x, s',
       EvRun p (remote_target er sc)
         (fst (backend_answer env p (remote_target er sc) s))
         (snd (backend_answer env p (remote_target er sc) s)) :: post).
Proof.
  simpl. unfold bind at 1.
  destruct (run_step_answer env p er sc s) as (s1 & E). rewrite E. cbn [fst snd].
  match goal with
  | |- exists _ _ _, (match ?m with (_, _) => _ end) = _ =>
      destruct m as [[x s2] e2]
  end.
  eexists _, _, _. reflexivity.
Qed.

(** C4 (as amended).  For an ordinal [n] and the configured servers: the
    first server in the list whose [steps_to_execute] contains [n]
    decides, and the step runs remotely on it when its [execute_remotely]
    is set and locally when it is not; when no server lists [n] the step
    runs locally; a server with an empty [steps_to_execute] is never the
    target; every run of the step, on every retry, uses this one choice;
    and a step that was generated, saved and found to hold a class is
    dispatched, with a positive budget, right after it is saved: its first
    run is the answer of the chosen backend. *)
Theorem backend_is_first_match_and_fixed ast_parse env config step pd n s :
  let r := process_step ast_parse env config step pd n s in
  let target := chosen_target config n in
  (forall pre t post,
      remote_servers config = pre ++ t :: post ->
      Forall (fun sv => ~ In n (steps_to_execute sv)) pre ->
      In n (steps_to_execute t) ->
      target = if execute_remotely t then Some t else None)
  /\ (Forall (fun sv => ~ In n (steps_to_execute sv)) (remote_servers config) ->
      target = None)
  /\ (forall t, steps_to_execute t = [] -> target <> Some t)
  /\ Forall (on_target target) (events_of r)
  /\ (forall code s1 e0,
         generate_step_code env step pd n s = (Some code, s1, e0) ->
         truthy code = true ->
         open_for_write env (clock s1) (step_file config n) = true ->
         usable (extract_class_name ast_parse (add_main_block ast_parse code n))
         = true ->
         (0 < max_retries config)%Z ->
         let saved := add_main_block ast_parse code n in
         let s2 := mkSys (<[step_file config n := saved]> (files s1)) (S (clock s1)) in
         let answer := backend_answer env (step_file config n) target s2 in
         exists post,
           events_of r
           = e0 ++ EvSave n saved (Some (step_file config n))
               :: EvRun (step_file config n) target (fst answer) (snd answer)
               :: post).
Proof.
  intros r target. subst r target.
  split; [|split; [|split; [|split]]].
  - intros pre t post E Hpre Ht. unfold chosen_target.
    rewrite E, (select_backend_first_match pre t post n Hpre Ht). reflexivity.
  - intros H. unfold chosen_target. rewrite (select_backend_none _ _ H). reflexivity.
  - intros t Ht. unfold chosen_target.
    destruct (select_backend (remote_servers config) n) as [er sc] eqn:E.
    destruct er, sc as [t'|]; simpl; try discriminate.
    intros [= ->]. apply select_backend_listed in E. rewrite Ht in E. exact E.
  - destruct (process_step_visit ast_parse env config step pd n s)
      as (res & s' & evs & E & V).
    rewrite E. unfold events_of. simpl. eapply visit_on_target. exact V.
  - intros code s1 e0 Hg Hc Hw Hx Hmr. cbv zeta.
    unfold process_step. unfold bind at 1. rewrite Hg.
    cbn [usable default]. rewrite Hc. cbn [negb].
    unfold bind at 1. unfold save_step_code. cbv zeta. fold (step_file config n).
    unfold bind at 1. unfold ask at 1. rewrite Hw. cbn [fst snd].
    unfold bind at 1 2. unfold put_file, ret. cbn [fst snd].
    unfold bind at 1. unfold emit at 1. cbn [files clock].
    change (id code) with code. rewrite Hx. cbn [negb]. unfold chosen_target.
    destruct (select_backend (remote_servers config) n) as [er sc].
    cbn [fst snd].
    unfold execute_and_fix_step, execute_and_fix_exit.
    destruct (Z.to_nat (max_retries config)) as [|b] eqn:Hb; [lia|].
    unfold bind at 1 2.
    match goal with
    | |- context [repair_loop env (S b) ?p n pd er sc ?st] =>
        destruct (repair_loop_first_run env b p n pd er sc st) as (x & s3 & post & R)
    end.
    rewrite R. cbn [fst snd]. unfold ret, visit_done, bind, emit, events_of.
    destruct (exit_ok x); simpl; rewrite ?app_nil_r; eexists; reflexivity.
Qed.

Lemma backend_is_first_match_and_fixed_witness :
  exists post,
    events_of (process_step sample_parse env_steps
                 (sample_config 1 [server_a; server_b]) "second" "problem" 2
                 sys_empty)
    = [EvGenerate 2 (Some (src_step 2));
       EvSave 2 (src_step 2 +:+ main_code 2) (Some path2);
       EvRun path2 (Some server_a) true ""] ++ post.
Proof.
  destruct (backend_is_first_match_and_fixed sample_parse env_steps
              (sample_config 1 [server_a; server_b]) "second" "problem" 2 sys_empty)
    as (_ & _ & _ & _ & H).
  destruct (H (src_step 2) (mkSys ∅ 1) [EvGenerate 2 (Some (src_step 2))])
    as (post & E).
  - vm_compute. reflexivity.
  - reflexivity.
  - reflexivity.
  - vm_compute. reflexivity.
  - simpl. lia.
  - exists post. rewrite E. vm_compute. reflexivity.
Defined.

(** C4, as stated, fails: the first server that lists step 2 has
    [execute_remotely] off, so the step runs locally, although that server
    and the next one, whose flag is on, both list it. *)
Lemma flag_off_target_runs_locally :
  let config := sample_config 1 [server_off; server_b] in
  let r := process_step sample_parse env_steps config "second" "problem" 2 sys_empty in
  In 2 (steps_to_execute server_off)
  /\ In 2 (steps_to_execute server_b)
  /\ execute_remotely server_b = true
  /\ events_of r
     = [EvGenerate 2 (Some (src_step 2));
        EvSave 2 (src_step 2 +:+ main_code 2) (Some path2);
        EvRun path2 None false "Traceback";
        EvRead path2 (src_step 2 +:+ main_code 2);
        EvFix 2 (Some "print(2)");
        EvUpdate path2 "print(2)" true;
        EvSleep 2;
        EvVisit 2 "second" ExecutionFailed].
Proof.
  repeat split; vm_compute; auto.
Qed.

(** ** The whole plan (C6, C7) *)

Lemma combine_seq_fst (l : list string) c :
  map fst (combine (seq c (length l)) l) = seq c (length l).
Proof. revert c. induction l as [|a l IH]; intros c; simpl; [|rewrite IH]; reflexivity. Qed.

Lemma combine_seq_snd (l : list string) c :
  map snd (combine (seq c (length l)) l) = l.
Proof. revert c. induction l as [|a l IH]; intros c; simpl; [|rewrite IH]; reflexivity. Qed.

(** C7.  Whatever the outcomes of the steps, [process_steps] visits the
    steps of the plan, flattened over its sections, in order and once each,
    with the ordinals 1, 2, ..., N. *)
Theorem ordinals_are_dense_and_increasing ast_parse env config plan pd s :
  let r := process_steps ast_parse env config plan pd s in
  let steps := concat (map snd plan) in
  map fst (visited (events_of r)) = seq 1 (length steps)
  /\ map snd (visited (events_of r)) = steps.
Proof.
  intros r steps.
  destruct (process_steps_visits ast_parse env config plan pd s)
    as (ex & s' & evs & E & V).
  subst r. rewrite E. unfold events_of. simpl.
  rewrite (visits_visited _ _ _ _ _ V). fold steps.
  split; [apply combine_seq_fst | apply combine_seq_snd].
Qed.

(** C6 (as amended).  Whenever an artifact reads back empty (it cannot be
    opened, is missing or is empty), the very next event is the end of that
    step, as an execution failure: the oracle is not consulted for it and
    nothing else is done.  The run is not aborted: [process_steps] still
    visits every ordinal of the plan. *)
Theorem unreadable_artifact_fails_its_step_only ast_parse env config plan pd s :
  let r := process_steps ast_parse env config plan pd s in
  (forall pre q post,
      events_of r = pre ++ EvRead q "" :: post ->
      exists n d post', post = EvVisit n d ExecutionFailed :: post')
  /\ map fst (visited (events_of r)) = seq 1 (length (concat (map snd plan))).
Proof.
  intros r.
  destruct (process_steps_visits ast_parse env config plan pd s)
    as (ex & s' & evs & E & V).
  subst r. rewrite E. unfold events_of. simpl. split.
  - exact (visits_reads_local _ _ _ _ _ V).
  - rewrite (visits_visited _ _ _ _ _ V). apply combine_seq_fst.
Qed.

Lemma unreadable_artifact_fails_its_step_only_witness :
  let r := process_steps sample_parse env_first_lost (sample_config 2 [])
             two_steps "problem" sys_empty in
  exists n d post',
    [EvVisit 1 "first" ExecutionFailed;
     EvGenerate 2 (Some (src_step 2));
     EvSave 2 (src_step 2 +:+ main_code 2) (Some path2);
     EvRun path2 None true "";
     EvVisit 2 "second" Succeeded]
    = EvVisit n d ExecutionFailed :: post'.
Proof.
  destruct (unreadable_artifact_fails_its_step_only sample_parse env_first_lost
              (sample_config 2 []) two_steps "problem" sys_empty) as (H & _).
  apply (H [EvGenerate 1 (Some (src_step 1));
            EvSave 1 (src_step 1 +:+ main_code 1) (Some path1);
            EvRun path1 None false "Traceback"] path1).
  vm_compute. reflexivity.
Defined.

(** C6, as stated, fails: the artifact of step 1 cannot be read back, and
    yet step 2 is generated, run and recorded as executed, the composite is
    assembled and run, and [run] returns normally. *)
Lemma run_continues_after_unreadable_artifact :
  let r := run sample_parse env_first_lost (sample_config 2 []) two_steps
             "problem" sys_empty in
  In (EvRead path1 "") (events_of r)
  /\ In (EvVisit 2 "second" Succeeded) (events_of r)
  /\ (exists code, In (EvMain "solution/main.py" code true) (events_of r))
  /\ In (EvRun "solution/main.py" None true "") (events_of r)
  /\ result_of r = None
  /\ result_of (process_steps sample_parse env_first_lost (sample_config 2 [])
                  two_steps "problem" sys_empty) = [path2].
Proof.
  split; [|split; [|split; [|split; [|split]]]].
  - vm_compute. auto 20.
  - vm_compute. auto 20.
  - eexists. vm_compute. do 10 right. left. reflexivity.
  - vm_compute. auto 20.
  - vm_compute. reflexivity.
  - vm_compute. reflexivity.
Qed.

(** ** Assembly (C5) *)

Lemma truthy_append a b : truthy (a +:+ b) = truthy a || truthy b.
Proof. destruct a; simpl; reflexivity. Qed.

Lemma assemble_loop_spec ast_parse env steps imps execs s :
  exists imps' execs' s' evs,
    assemble_loop ast_parse env steps imps execs s = ((imps', execs'), s', evs)
    /\ forallb is_read evs = true
    /\ truthy imps' = truthy imps || existsb (contributes ast_parse) evs
    /\ truthy execs' = truthy execs || existsb (contributes ast_parse) evs.
Proof.
  revert imps execs s. induction steps as [|p rest IH]; intros imps execs s; simpl.
  - eexists _, _, _, _. split; [reflexivity|]. rewrite !orb_false_r. auto.
  - destruct (search_step_number (basename p)) as [k|]; [|apply IH].
    unfold bind at 1.
    destruct (get_step_code_spec env p s) as (text & E). rewrite E.
    set (s1 := mkSys (files s) (S (clock s))).
    destruct (truthy text) eqn:Ht; simpl.
    + destruct (extract_class_name ast_parse text) as [c|] eqn:Hx;
        [destruct (truthy c) eqn:Hc|].
      * destruct (IH (imps +:+ import_line (splitext_root (basename p)) c)
                    (execs +:+ execution_lines k c) s1)
          as (i' & e' & s' & evs & E' & F & Hi & He).
        rewrite E'. eexists _, _, _, _. split; [reflexivity|].
        split; [exact F|]. simpl. rewrite Ht, Hx. simpl. rewrite Hc. simpl.
        rewrite Hi, He, !truthy_append. simpl. rewrite !orb_true_r. auto.
      * destruct (IH imps execs s1) as (i' & e' & s' & evs & E' & F & Hi & He).
        rewrite E'. eexists _, _, _, _. split; [reflexivity|].
        split; [exact F|]. simpl. rewrite Ht, Hx. simpl. rewrite Hc. auto.
      * destruct (IH imps execs s1) as (i' & e' & s' & evs & E' & F & Hi & He).
        rewrite E'. eexists _, _, _, _. split; [reflexivity|].
        split; [exact F|]. simpl. rewrite Ht, Hx. auto.
    + destruct (IH imps execs s1) as (i' & e' & s' & evs & E' & F & Hi & He).
      rewrite E'. eexists _, _, _, _. split; [reflexivity|].
      split; [exact F|]. simpl. rewrite Ht. auto.
Qed.

Lemma existsb_snoc_false {A} (f : A -> bool) l x :
  f x = false -> existsb f (l ++ [x]) = existsb f l.
Proof. intros H. rewrite existsb_app. simpl. rewrite H, !orb_false_r. reflexivity. Qed.

Lemma reads_hold_no_main evs path code ok :
  forallb is_read evs = true -> ~ In (EvMain path code ok) evs.
Proof.
  intros H Hin. rewrite forallb_forall in H. specialize (H _ Hin). discriminate.
Qed.

Lemma assemble_solution_spec ast_parse env config steps s :
  exists res s' evs,
    assemble_solution ast_parse env config steps s = (res, s', evs)
    /\ (existsb (contributes ast_parse) evs = false ->
        res = None /\ forall path code ok, ~ In (EvMain path code ok) evs)
    /\ (existsb (contributes ast_parse) evs = true ->
        exists pre code ok,
          evs = pre ++ [EvMain (main_file config) code ok]
          /\ res = if ok then Some (main_file config) else None).
Proof.
  unfold assemble_solution. unfold bind at 1.
  destruct (assemble_loop_spec ast_parse env steps "" "" s)
    as (imps & execs & s1 & evs & E & F & Hi & He).
  rewrite E. cbn [fst snd]. rewrite Hi, He. cbn [truthy String.eqb negb orb].
  destruct (existsb (contributes ast_parse) evs) eqn:Hc; cbn [negb andb].
  - unfold bind, ask, emit, ret, put_file. simpl. fold (main_file config).
    destruct (open_for_write env (clock s1) (main_file config)); simpl;
      eexists _, _, _; (split; [reflexivity|]);
      (split; [rewrite existsb_snoc_false by reflexivity; congruence|]);
      intros _; [eexists evs, _, true | eexists evs, _, false];
      split; reflexivity.
  - unfold ret. eexists _, _, _. split; [reflexivity|]. rewrite app_nil_r.
    split; [|congruence].
    intros _. split; [reflexivity|].
    intros path code ok. apply reads_hold_no_main. exact F.
Qed.




(** ** Normalization (C8) *)

Lemma append_cons c a b : String c a +:+ b = String c (a +:+ b).
Proof. reflexivity. Qed.

Lemma append_nil_l b : "" +:+ b = b.
Proof. reflexivity. Qed.

Lemma indented_lines_plain a r :
  all_plain a = true -> indented_lines false (a +:+ r) = indented_lines false r.
Proof.
  induction a as [|c a IH]; [reflexivity|]. simpl all_plain.
  intros H. apply andb_prop in H. destruct H as [Hc Ha].
  rewrite append_cons. simpl.
  assert (Ascii.eqb c "010"%char = false) as ->.
  { destruct (Ascii.eqb_spec c "010"%char) as [->|]; [discriminate Hc | reflexivity]. }
  rewrite Hc. simpl. apply IH, Ha.
Qed.

Lemma dec_plain n : all_plain (dec n) = true.
Proof. unfold dec. induction (Nat.to_uint n); simpl; auto. Qed.

Lemma read_if_block_main_code n : read_if_block (main_code n) = Some guard_test.
Proof.
  unfold main_code, read_if_block, nl, dq.
  rewrite !append_cons, !append_nil_l.
  cbn [strip_prefix Ascii.eqb Bool.eqb take_line].
  cbn [indented_lines Ascii.eqb Bool.eqb andb String.eqb negb].
  rewrite (indented_lines_plain (dec n)) by apply dec_plain.
  reflexivity.
Qed.

Lemma has_main_if_last t body : has_main (t ++ [If guard_test body []]) = true.
Proof.
  unfold has_main, walk_module. rewrite flat_map_app, existsb_app.
  apply orb_true_iff. right. reflexivity.
Qed.

Lemma suffixes_app s block : In block (suffixes (s +:+ block)).
Proof.
  induction s as [|c s IH].
  - destruct block; left; reflexivity.
  - rewrite append_cons. right. exact IH.
Qed.

Lemma reads_guard_only_sound text s block test :
  reads_guard_only text = true ->
  s +:+ block = text -> read_if_block block = Some test -> test = guard_test.
Proof.
  unfold reads_guard_only. intros H E R. rewrite forallb_forall in H.
  specialize (H block). rewrite <- E in H. specialize (H (suffixes_app s block)).
  rewrite R in H.
  repeat match type of H with
         | context [match ?x with _ => _ end] =>
             is_var x; destruct x; try discriminate H
         end.
  apply andb_prop in H. destruct H as [H1 H2].
  apply String.eqb_eq in H1, H2. subst. reflexivity.
Qed.

Lemma reads_no_block_sound text s block test :
  reads_no_block text = true ->
  s +:+ block = text -> read_if_block block = Some test -> False.
Proof.
  unfold reads_no_block. intros H E R. rewrite forallb_forall in H.
  specialize (H block). rewrite <- E in H. specialize (H (suffixes_app s block)).
  rewrite R in H. discriminate H.
Qed.

Lemma sample_parse_appended s block test t' :
  read_if_block block = Some test ->
  sample_parse (s +:+ block) = Some t' ->
  exists t body, t' = t ++ [If test body []].
Proof.
  intros R. unfold sample_parse, sample_table. cbn [find fst snd].
  repeat (match goal with
          | |- context [String.eqb (s +:+ block) ?lit] =>
              destruct (String.eqb (s +:+ block) lit) eqn:E;
              [apply String.eqb_eq in E;
               first [ exfalso; apply (reads_no_block_sound lit s block test);
                       [vm_compute; reflexivity | exact E | exact R]
                     | rewrite (reads_guard_only_sound lit s block test);
                       [intros [= <-]; eexists [_], _; reflexivity
                       | vm_compute; reflexivity | exact E | exact R] ]
              | clear E]
          end).
  intros H. discriminate H.
Qed.

Section Normalization.

Variable ast_parse : string -> option (list stmt).

(** What is taken for granted of the interpreter's parser: a module is the
    sequence of its top-level statements.  When a text ends with a block
    that [read_if_block] accepts and parses at all, the last statement of
    its tree is the [if] of that block, with the test its header spells
    out.  Nothing is assumed of [main_code] or of [has_main]: that the
    block [main_code] appends is of this shape and that its test is a
    guard are [read_if_block_main_code] and [has_main_if_last]. *)
Hypothesis appended_if_is_last_statement :
  forall s block test t',
    read_if_block block = Some test ->
    ast_parse (s +:+ block) = Some t' ->
    exists t body, t' = t ++ [If test body []].

(** C8.  [add_main_block] is idempotent; it returns unchanged a text that
    ends with the block it appends, for any ordinal, and a text in whose
    tree it finds a guard. *)
Theorem add_main_block_idempotent (s : string) (n : nat) :
  add_main_block ast_parse (add_main_block ast_parse s n) n
  = add_main_block ast_parse s n
  /\ (forall m, add_main_block ast_parse (s +:+ main_code m) n = s +:+ main_code m)
  /\ (forall t, ast_parse s = Some t -> has_main t = true ->
                add_main_block ast_parse s n = s).
Proof.
  assert (forall m, add_main_block ast_parse (s +:+ main_code m) n
                    = s +:+ main_code m) as Kept.
  { intros m. unfold add_main_block.
    destruct (ast_parse (s +:+ main_code m)) as [t'|] eqn:Hs'; [|reflexivity].
    destruct (appended_if_is_last_statement s (main_code m) guard_test t'
                (read_if_block_main_code m) Hs') as (t & body & ->).
    rewrite has_main_if_last. reflexivity. }
  split; [|split].
  - unfold add_main_block at 2 3.
    destruct (ast_parse s) as [t|] eqn:Hs.
    + destruct (has_main t) eqn:Hm; simpl.
      * unfold add_main_block. rewrite Hs, Hm. reflexivity.
      * apply Kept.
    + unfold add_main_block. rewrite Hs. reflexivity.
  - exact Kept.
  - intros t Hs Hm. unfold add_main_block. rewrite Hs, Hm. reflexivity.
Qed.

End Normalization.

Lemma add_main_block_idempotent_witness :
  add_main_block sample_parse (add_main_block sample_parse (src_step 1) 1) 1
  = add_main_block sample_parse (src_step 1) 1
  /\ add_main_block sample_parse (src_step 1) 1 = src_step 1 +:+ main_code 1.
Proof.
  split.
  - apply (add_main_block_idempotent sample_parse sample_parse_appended (src_step 1) 1).
  - vm_compute. reflexivity.
Defined.

(** ** Backends (C9) *)






(** ** Further properties of the code *)




Lemma succeeded_paths_app config l1 l2 :
  succeeded_paths config (l1 ++ l2)
  = succeeded_paths config l1 ++ succeeded_paths config l2.
Proof. unfold succeeded_paths. apply flat_map_app. Qed.

Lemma succeeded_paths_sleeps config j k :
  succeeded_paths config (repeat (EvSleep k) j) = [].
Proof. induction j; simpl; auto. Qed.

Lemma attempts_succeeded_paths config p tg n b fs x evs fs' :
  attempts p tg n b fs x evs fs' -> succeeded_paths config evs = [].
Proof.
  induction 1; try reflexivity.
  - simpl. rewrite succeeded_paths_app, succeeded_paths_sleeps. reflexivity.
  - simpl. rewrite succeeded_paths_app, succeeded_paths_sleeps. simpl. assumption.
Qed.

Lemma visit_succeeded_paths ast_parse config n step res evs :
  visit ast_parse config n step res evs ->
  succeeded_paths config evs = match res with Some p => [p] | None => [] end.
Proof.
  destruct 1; rewrite succeeded_paths_app, succeeded_paths_sleeps; simpl;
    try reflexivity.
  rewrite succeeded_paths_app.
  erewrite attempts_succeeded_paths by eassumption.
  destruct (exit_ok x); reflexivity.
Qed.

Lemma append_path_app ex res :
  append_path ex res = ex ++ match res with Some p => [p] | None => [] end.
Proof. destruct res; simpl; [reflexivity | rewrite app_nil_r; reflexivity]. Qed.

Lemma process_section_paths ast_parse env config steps pd c ex s :
  exists s' evs,
    process_section ast_parse env config steps pd c ex s
    = ((c + length steps, ex ++ succeeded_paths config evs), s', evs)
    /\ visits ast_parse config c steps evs.
Proof.
  revert c ex s. induction steps as [|step rest IH]; intros c ex s; simpl.
  - exists s, []. simpl. rewrite Nat.add_0_r, app_nil_r.
    split; [reflexivity | constructor].
  - unfold bind at 1.
    destruct (process_step_visit ast_parse env config step pd c s)
      as (res & s1 & evs & E & V).
    rewrite E.
    destruct (IH (S c) (append_path ex res) s1) as (s' & evs' & E' & V').
    rewrite E'. exists s', (evs ++ evs').
    rewrite Nat.add_succ_r, succeeded_paths_app,
      (visit_succeeded_paths _ _ _ _ _ _ V), append_path_app, app_assoc.
    split; [reflexivity | econstructor; eassumption].
Qed.

Lemma process_plan_paths ast_parse env config plan pd c ex s :
  exists s' evs,
    process_plan ast_parse env config plan pd c ex s
    = ((c + length (concat (map snd plan)), ex ++ succeeded_paths config evs),
       s', evs)
    /\ visits ast_parse config c (concat (map snd plan)) evs.
Proof.
  revert c ex s. induction plan as [|[title steps] rest IH]; intros c ex s; simpl.
  - exists s, []. simpl. rewrite Nat.add_0_r, app_nil_r.
    split; [reflexivity | constructor].
  - unfold bind at 1.
    destruct (process_section_paths ast_parse env config steps pd c ex s)
      as (s1 & evs1 & E1 & V1).
    rewrite E1. simpl.
    destruct (IH (c + length steps) (ex ++ succeeded_paths config evs1) s1)
      as (s' & evs' & E' & V').
    rewrite E'. exists s', (evs1 ++ evs').
    rewrite length_app, Nat.add_assoc, succeeded_paths_app, app_assoc.
    split; [reflexivity | apply visits_app; assumption].
Qed.

Lemma process_steps_paths ast_parse env config plan pd s :
  exists s' evs,
    process_steps ast_parse env config plan pd s
    = (succeeded_paths config evs, s', evs)
    /\ visits ast_parse config 1 (concat (map snd plan)) evs.
Proof.
  unfold process_steps.
  destruct (process_plan_paths ast_parse env config plan pd 1 [] s)
    as (s' & evs & E & V).
  unfold bind. rewrite E. simpl. rewrite app_nil_r. eauto.
Qed.

Lemma attempts_success_last p tg n b fs evs fs' :
  attempts p tg n b fs ExitSuccess evs fs' ->
  exists pre out, evs = pre ++ [EvRun p tg true out].
Proof.
  remember ExitSuccess as x eqn:Hx.
  induction 1 as [fs | b fs out | | | b fs err code j c ok x evs fs' Hc Ht _ IH];
    try discriminate.
  - exists [], out. reflexivity.
  - destruct (IH Hx) as (pre & out & ->).
    exists (EvRun p tg false err :: EvRead p code :: repeat (EvSleep 10) j
              ++ [EvFix n (Some c); EvUpdate p c ok; EvSleep 2] ++ pre), out.
    simpl. rewrite <- !app_assoc. reflexivity.
Qed.

Lemma app_inj_last {A} (l1 l2 : list A) a b :
  l1 ++ [a] = l2 ++ [b] -> l1 = l2 /\ a = b.
Proof. intros H. apply app_inj_tail in H. exact H. Qed.

Lemma is_visit_split (l : list event) e pre n d post :
  Forall (fun e' => visited [e'] = []) l ->
  l ++ [e] = pre ++ EvVisit n d Succeeded :: post ->
  pre = l /\ e = EvVisit n d Succeeded /\ post = [].
Proof.
  intros HF E. symmetry in E.
  destruct (split_past (fun e' => visited [e'] = []) _ _ _ _ _ E HF)
    as (pre2 & -> & E2); [discriminate|].
  destruct pre2 as [|? [|? ?]]; inversion E2; subst.
  rewrite app_nil_r. auto.
Qed.

Lemma visited_nil_forall l : visited l = [] -> Forall (fun e' => visited [e'] = []) l.
Proof.
  induction l as [|e l IH]; intros H; constructor.
  - change (e :: l) with ([e] ++ l) in H. rewrite visited_app in H.
    apply app_eq_nil in H. tauto.
  - apply IH. change (e :: l) with ([e] ++ l) in H. rewrite visited_app in H.
    apply app_eq_nil in H. tauto.
Qed.

Lemma visit_after_own_success ast_parse config n step res evs :
  visit ast_parse config n step res evs ->
  forall pre m d post,
    evs = pre ++ EvVisit m d Succeeded :: post ->
    m = n /\ post = []
    /\ exists pre' out,
         pre = pre' ++ [EvRun (step_file config n) (chosen_target config n) true out].
Proof.
  intros V pre m d post E.
  destruct V as [j reply Hu | j code Hc | j code Hc Hx | j code fs x evs fs' Hc Hx A].
  - change [EvGenerate n reply; EvVisit n step GenerationFailed]
      with ([EvGenerate n reply] ++ [EvVisit n step GenerationFailed]) in E.
    rewrite app_assoc in E. apply is_visit_split in E.
    + destruct E as (_ & [=] & _).
    + apply Forall_app. split; [apply visited_nil_forall, visited_sleeps | repeat constructor].
  - change [EvGenerate n (Some code); EvSave n (add_main_block ast_parse code n) None;
            EvVisit n step SaveFailed]
      with ([EvGenerate n (Some code); EvSave n (add_main_block ast_parse code n) None]
              ++ [EvVisit n step SaveFailed]) in E.
    rewrite app_assoc in E. apply is_visit_split in E.
    + destruct E as (_ & [=] & _).
    + apply Forall_app. split; [apply visited_nil_forall, visited_sleeps | repeat constructor].
  - match type of E with
    | _ ++ [?a; ?b; ?c] = _ => change [a; b; c] with ([a; b] ++ [c]) in E
    end.
    rewrite app_assoc in E. apply is_visit_split in E.
    + destruct E as (_ & [=] & _).
    + apply Forall_app. split; [apply visited_nil_forall, visited_sleeps | repeat constructor].
  - rewrite 2 app_comm_cons, app_assoc in E. apply is_visit_split in E.
    + destruct E as (-> & E & ->).
      destruct (exit_ok x) eqn:Hx'; [|discriminate].
      injection E as <- <-.
      destruct x; try discriminate.
      destruct (attempts_success_last _ _ _ _ _ _ _ A) as (pre' & out & ->).
      split; [reflexivity|]. split; [reflexivity|].
      eexists (repeat (EvSleep 10) j ++ _ :: _ :: pre'), out.
      rewrite <- !app_assoc. simpl. reflexivity.
    + apply Forall_app. split; [apply visited_nil_forall, visited_sleeps|].
      constructor; [reflexivity|]. constructor; [reflexivity|].
      apply visited_nil_forall. eapply attempts_visited. exact A.
Qed.

Lemma visits_after_own_success ast_parse config c steps evs :
  visits ast_parse config c steps evs -> after_own_success config evs.
Proof.
  induction 1 as [c | c step rest res evs evs' V _ IH]; intros pre n d post E.
  - destruct pre; discriminate.
  - symmetry in E. apply split_in_app in E.
    destruct E as [(post1 & E1 & ->) | (pre2 & -> & E2)].
    + destruct (visit_after_own_success _ _ _ _ _ _ V _ _ _ _ E1)
        as (-> & _ & pre' & out & ->).
      eauto.
    + destruct (IH _ _ _ _ E2) as (pre' & out & ->).
      exists (evs ++ pre'), out. rewrite app_assoc. reflexivity.
Qed.

(** X2.  The list [process_steps] returns is exactly the artifacts of the
    visits that ended in success, in plan order: failed and abandoned
    steps leave no path behind, and nothing else is added. *)
Theorem executed_steps_are_the_successes ast_parse env config plan pd s :
  let r := process_steps ast_parse env config plan pd s in
  result_of r = succeeded_paths config (events_of r).
Proof.
  intros r.
  destruct (process_steps_paths ast_parse env config plan pd s)
    as (s' & evs & E & _).
  subst r. rewrite E. reflexivity.
Qed.

(** X3.  A step is recorded as succeeded only right after a successful run
    of its own artifact on its own backend: the event before the record is
    that run. *)
Theorem success_follows_own_run ast_parse env config plan pd s :
  let r := process_steps ast_parse env config plan pd s in
  forall pre n d post,
    events_of r = pre ++ EvVisit n d Succeeded :: post ->
    exists pre' out,
      pre = pre' ++ [EvRun (step_file config n) (chosen_target config n) true out].
Proof.
  intros r.
  destruct (process_steps_paths ast_parse env config plan pd s)
    as (s' & evs & E & V).
  subst r. rewrite E. exact (visits_after_own_success _ _ _ _ _ V).
Qed.

Lemma success_follows_own_run_witness :
  exists pre' out,
    [EvGenerate 1 (Some (src_step 1));
     EvSave 1 (src_step 1 +:+ main_code 1) (Some path1);
     EvRun path1 None false "Traceback"; EvRead path1 "";
     EvVisit 1 "first" ExecutionFailed;
     EvGenerate 2 (Some (src_step 2));
     EvSave 2 (src_step 2 +:+ main_code 2) (Some path2);
     EvRun path2 None true ""]
    = pre' ++ [EvRun (step_file (sample_config 2 []) 2)
                 (chosen_target (sample_config 2 []) 2) true out].
Proof.
  apply (success_follows_own_run sample_parse env_first_lost (sample_config 2 [])
           two_steps "problem" sys_empty _ 2 "second" []).
  vm_compute. reflexivity.
Defined.

Lemma visits_budget_zero ast_parse config c steps evs :
  Z.to_nat (max_retries config) = 0 ->
  visits ast_parse config c steps evs ->
  executions evs = 0 /\ succeeded_paths config evs = [].
Proof.
  intros Hz. unfold executions.
  induction 1 as [c | c step rest res evs evs' V _ IH]; [split; reflexivity|].
  destruct IH as [I1 I2].
  rewrite count_app, succeeded_paths_app, I1, I2.
  destruct V as [j reply Hu | j code Hc | j code Hc Hx | j code fs x evs fs' Hc Hx A];
    rewrite count_app, succeeded_paths_app, count_sleeps, succeeded_paths_sleeps
      by reflexivity; try (split; reflexivity).
  rewrite Hz in A. inversion A; subst. split; reflexivity.
Qed.

(** X4.  With [max_retries] zero or negative no artifact is ever run:
    [process_steps] returns the empty list, and [run] exits with status 1
    without doing anything after [process_steps] (nothing is assembled). *)
Theorem nonpositive_budget_runs_nothing ast_parse env config plan pd s :
  (max_retries config <= 0)%Z ->
  result_of (process_steps ast_parse env config plan pd s) = []
  /\ executions (events_of (process_steps ast_parse env config plan pd s)) = 0
  /\ result_of (run ast_parse env config plan pd s) = Some 1%Z
  /\ events_of (run ast_parse env config plan pd s)
     = events_of (process_steps ast_parse env config plan pd s).
Proof.
  intros Hmr.
  destruct (process_steps_paths ast_parse env config plan pd s)
    as (s' & evs & E & V).
  assert (Z.to_nat (max_retries config) = 0) as Hz by lia.
  destruct (visits_budget_zero _ _ _ _ _ Hz V) as [H1 H2].
  unfold run, bind. rewrite E, H2. unfold result_of, events_of. simpl.
  rewrite app_nil_r. auto.
Qed.

Lemma nonpositive_budget_runs_nothing_witness :
  result_of (run sample_parse env_steps (sample_config 0 []) two_steps
               "problem" sys_empty) = Some 1%Z.
Proof.
  apply (nonpositive_budget_runs_nothing sample_parse env_steps
           (sample_config 0 []) two_steps "problem" sys_empty).
  simpl. lia.
Defined.

Lemma string_of_uint_digits u : digits_only (NilEmpty.string_of_uint u) = true.
Proof. induction u; simpl; auto. Qed.

Lemma zeros_digits k : digits_only (zeros k) = true.
Proof. induction k; simpl; auto. Qed.

Lemma digits_only_app a b :
  digits_only (a +:+ b) = digits_only a && digits_only b.
Proof. induction a as [|c a IH]; simpl; [reflexivity|]. rewrite IH, andb_assoc. reflexivity. Qed.

Lemma pad3_digits n : digits_only (pad3 n) = true.
Proof.
  unfold pad3. cbv zeta. rewrite digits_only_app, zeros_digits. apply string_of_uint_digits.
Qed.

Lemma length_append a b : String.length (a +:+ b) = String.length a + String.length b.
Proof. induction a; simpl; auto. Qed.

Lemma length_zeros k : String.length (zeros k) = k.
Proof. induction k; simpl; auto. Qed.

Lemma pad3_length n : String.length (pad3 n) = Nat.max 3 (String.length (dec n)).
Proof. unfold pad3. cbv zeta. rewrite length_append, length_zeros. lia. Qed.

Lemma pad3_truthy n : truthy (pad3 n) = true.
Proof.
  pose proof (pad3_length n) as H. destruct (pad3 n); [simpl in H; lia | reflexivity].
Qed.

Lemma take_digits_app ds r :
  digits_only ds = true ->
  take_digits (ds +:+ String "."%char r) = (ds, String "."%char r).
Proof.
  induction ds as [|c ds IH]; simpl; intros H; [reflexivity|].
  apply andb_prop in H. destruct H as [Hc Hd]. rewrite Hc, (IH Hd). reflexivity.
Qed.

Lemma match_step_here_name n :
  match_step_here ("step_" +:+ pad3 n +:+ ".py") = Some (pad3 n).
Proof.
  unfold match_step_here. rewrite !append_cons, append_nil_l.
  cbn [strip_prefix Ascii.eqb Bool.eqb].
  rewrite (take_digits_app _ _ (pad3_digits n)).
  cbn [strip_prefix Ascii.eqb Bool.eqb]. rewrite pad3_truthy. reflexivity.
Qed.

Lemma search_step_number_name n :
  search_step_number ("step_" +:+ pad3 n +:+ ".py") = Some (pad3 n).
Proof.
  pose proof (match_step_here_name n) as H.
  rewrite !append_cons, append_nil_l in *.
  cbn [search_step_number]. rewrite H. reflexivity.
Qed.

Lemma digits_no_slash s : digits_only s = true -> no_slash s = true.
Proof.
  induction s as [|c s IH]; simpl; [reflexivity|].
  intros H. apply andb_prop in H. destruct H as [Hc Hs]. rewrite (IH Hs), andb_true_r.
  destruct (Ascii.eqb_spec c "/"%char) as [->|]; [discriminate Hc | reflexivity].
Qed.

Lemma no_slash_app a b : no_slash (a +:+ b) = no_slash a && no_slash b.
Proof. induction a as [|c a IH]; simpl; [reflexivity|]. rewrite IH, andb_assoc. reflexivity. Qed.

Lemma step_name_no_slash n : no_slash ("step_" +:+ pad3 n +:+ ".py") = true.
Proof.
  rewrite !no_slash_app, (digits_no_slash _ (pad3_digits n)). reflexivity.
Qed.

Lemma basename_go_no_slash acc f : no_slash f = true -> basename_go acc f = acc.
Proof.
  revert acc. induction f as [|c f IH]; simpl; intros acc H; [reflexivity|].
  apply andb_prop in H. destruct H as [Hc Hf].
  destruct (Ascii.eqb c "/"%char); [discriminate|]. apply IH. exact Hf.
Qed.

Lemma basename_go_slash_app d acc f :
  no_slash f = true -> basename_go acc (d +:+ "/" +:+ f) = f.
Proof.
  intros Hf. revert acc. induction d as [|c d IH]; intros acc.
  - rewrite append_nil_l, append_cons, append_nil_l. simpl.
    apply basename_go_no_slash. exact Hf.
  - rewrite append_cons. simpl. destruct (Ascii.eqb c "/"%char); apply IH.
Qed.

Lemma basename_go_ends_slash d acc f :
  no_slash f = true -> ends_with_slash d = true -> basename_go acc (d +:+ f) = f.
Proof.
  intros Hf. revert acc. induction d as [|c d IH]; intros acc Hd; [discriminate|].
  rewrite append_cons. simpl in *. destruct d as [|c' d'].
  - rewrite Hd, append_nil_l. apply basename_go_no_slash. exact Hf.
  - destruct (Ascii.eqb c "/"%char); apply IH; exact Hd.
Qed.

Lemma starts_with_slash_no_slash f :
  no_slash f = true -> starts_with_slash f = false.
Proof.
  destruct f as [|c f]; simpl; [reflexivity|].
  intros H. apply andb_prop in H. destruct H as [Hc _].
  destruct (Ascii.eqb c "/"%char); [discriminate | reflexivity].
Qed.

Lemma basename_path_join d f :
  no_slash f = true -> basename (path_join d f) = f.
Proof.
  intros Hf. unfold basename, path_join.
  rewrite (starts_with_slash_no_slash f Hf).
  destruct (String.eqb d "") eqn:Hd; simpl.
  - apply String.eqb_eq in Hd. subst d. rewrite append_nil_l.
    apply basename_go_no_slash. exact Hf.
  - destruct (ends_with_slash d) eqn:He.
    + apply basename_go_ends_slash; assumption.
    + apply basename_go_slash_app. exact Hf.
Qed.

Lemma digits_no_dot s : digits_only s = true -> no_dot s = true.
Proof.
  induction s as [|c s IH]; simpl; [reflexivity|].
  intros H. apply andb_prop in H. destruct H as [Hc Hs]. rewrite (IH Hs), andb_true_r.
  destruct (Ascii.eqb_spec c "."%char) as [->|]; [discriminate Hc | reflexivity].
Qed.

Lemma last_dot_app a :
  last_dot (a +:+ ".py") = Some (String.length a).
Proof.
  induction a as [|c a IH]; [reflexivity|].
  rewrite append_cons. simpl. rewrite IH. reflexivity.
Qed.

Lemma substring_prefix a b : String.substring 0 (String.length a) (a +:+ b) = a.
Proof.
  induction a as [|c a IH]; simpl.
  - destruct b; reflexivity.
  - rewrite IH. reflexivity.
Qed.

Lemma splitext_root_name n :
  splitext_root ("step_" +:+ pad3 n +:+ ".py") = "step_" +:+ pad3 n.
Proof.
  unfold splitext_root.
  replace ("step_" +:+ pad3 n +:+ ".py") with (("step_" +:+ pad3 n) +:+ ".py")
    by (rewrite !append_cons, !append_nil_l; reflexivity).
  rewrite last_dot_app, substring_prefix.
  rewrite !append_cons. reflexivity.
Qed.

Lemma append_inj_l a x y : a +:+ x = a +:+ y -> x = y.
Proof. induction a as [|c a IH]; simpl; [auto|]. intros [= H]. auto. Qed.

Lemma path_join_inj d f g :
  no_slash f = true -> no_slash g = true -> path_join d f = path_join d g -> f = g.
Proof.
  intros Hf Hg H.
  rewrite <- (basename_path_join d f Hf), <- (basename_path_join d g Hg), H.
  reflexivity.
Qed.

Lemma zeros_string k u :
  zeros k +:+ NilEmpty.string_of_uint u = NilEmpty.string_of_uint (lead_zeros k u).
Proof.
  induction k as [|k IH]; [reflexivity|].
  change (String "0"%char (zeros k) +:+ NilEmpty.string_of_uint u
          = String "0"%char (NilEmpty.string_of_uint (lead_zeros k u))).
  rewrite append_cons, IH. reflexivity.
Qed.

Lemma of_lead_zeros k u : Nat.of_uint (lead_zeros k u) = Nat.of_uint u.
Proof. induction k as [|k IH]; simpl; [reflexivity|]. exact IH. Qed.

Lemma pad3_inj n m : pad3 n = pad3 m -> n = m.
Proof.
  unfold pad3, dec. cbv zeta. rewrite !zeros_string. intros H.
  apply (f_equal NilEmpty.uint_of_string) in H.
  rewrite !NilEmpty.usu in H. injection H as H.
  apply (f_equal Nat.of_uint) in H.
  rewrite !of_lead_zeros, !DecimalNat.Unsigned.of_to in H. exact H.
Qed.

(** X5.  Two different ordinals never share an artifact: the paths
    [save_step_code] writes for them differ, also beyond step 999, where
    the ordinal outgrows its three digits. *)
Theorem step_files_are_distinct config n m :
  n <> m -> step_file config n <> step_file config m.
Proof.
  unfold step_file. intros Hnm H. apply Hnm.
  apply path_join_inj in H; try apply step_name_no_slash.
  rewrite !append_cons, !append_nil_l in H. injection H as H.
  apply (f_equal take_digits) in H.
  change (pad3 n +:+ ".py") with (pad3 n +:+ String "."%char "py") in H.
  change (pad3 m +:+ ".py") with (pad3 m +:+ String "."%char "py") in H.
  rewrite !take_digits_app in H by apply pad3_digits.
  injection H as H. apply pad3_inj. exact H.
Qed.

Lemma step_files_are_distinct_witness :
  step_file (sample_config 1 []) 999 <> step_file (sample_config 1 []) 1000.
Proof.
  apply (step_files_are_distinct (sample_config 1 []) 999 1000). lia.
Defined.

(** X6.  The name [save_step_code] gives the artifact of step [n] is one
    [assemble_solution] accepts: its base name is step_<digits>.py, the
    pattern finds exactly the zero-padded ordinal in it, the module name is
    the base name without its extension, and the ordinal is padded to
    three digits and never cut. *)
Theorem assembler_recognises_step_files config n :
  let name := basename (step_file config n) in
  name = "step_" +:+ pad3 n +:+ ".py"
  /\ search_step_number name = Some (pad3 n)
  /\ splitext_root name = "step_" +:+ pad3 n
  /\ String.length (pad3 n) = Nat.max 3 (String.length (dec n)).
Proof.
  intros name. subst name. unfold step_file.
  rewrite (basename_path_join _ _ (step_name_no_slash n)).
  split; [reflexivity|]. split; [apply search_step_number_name|].
  split; [apply splitext_root_name | apply pad3_length].
Qed.

Lemma sleeps_addresses p j k : Forall (addresses p) (repeat (EvSleep k) j).
Proof. induction j; simpl; constructor; auto. exact I. Qed.

Lemma attempts_addresses p tg n b fs x evs fs' :
  attempts p tg n b fs x evs fs' -> Forall (addresses p) evs.
Proof.
  induction 1 as [fs | b fs out | b fs err | b fs err code j reply Hc Hu
                 | b fs err code j c ok x evs fs' Hc Ht _ IH].
  - constructor.
  - repeat constructor.
  - repeat constructor.
  - constructor; [reflexivity|]. constructor; [reflexivity|].
    apply Forall_app. split; [apply sleeps_addresses | repeat constructor].
  - constructor; [reflexivity|]. constructor; [reflexivity|].
    apply Forall_app. split; [apply sleeps_addresses|].
    constructor; [exact I|]. constructor; [reflexivity|].
    constructor; [exact I | exact IH].
Qed.

(** X7.  Every operation [execute_and_fix_step] itself performs on a file
    (running it, reading it back, rewriting it) is on the artifact it was
    given; what the executed code does to the disk is not covered. *)
Theorem repair_addresses_its_artifact_only env p n pd mr er sc s :
  Forall (addresses p) (events_of (execute_and_fix_step env p n pd mr er sc s)).
Proof.
  destruct (execute_and_fix_step_attempts env p n pd mr er sc s)
    as (x & s' & evs & E & _ & A).
  rewrite E. exact (attempts_addresses _ _ _ _ _ _ _ _ A).
Qed.














Lemma execute_main_spec env path s :
  exists ok text,
    execute_main env path s
    = ((ok, text), mkSys (files s) (S (clock s)), [EvRun path None ok text]).
Proof.
  unfold execute_main, run_local, bind, ask, get_files, emit, ret. simpl.
  destruct (subprocess_run env (clock s) path (files s !! path)) as [rc o e|];
    [destruct (Z.eqb rc 0)|]; eexists _, _; reflexivity.
Qed.

Lemma fix_main_spec env err code pd s :
  exists reply s' j,
    fix_main_with_gpt4 env err code pd s
    = (reply, s', repeat (EvSleep 10) j ++ [EvFixMain reply])
    /\ files s' = files s.
Proof.
  unfold fix_main_with_gpt4.
  destruct (request_loop_spec env 3 (FixMainReq err code pd) s) as (reply & s' & j & E & F).
  exists reply, s', j. unfold bind at 1. rewrite E.
  unfold bind, emit, ret. simpl. auto.
Qed.

Lemma repair_main_loop_spec env b path pd s :
  exists res s' evs,
    repair_main_loop env b path pd s = (res, s', evs)
    /\ executions evs <= b
    /\ (res = true -> exists pre out, evs = pre ++ [EvRun path None true out])
    /\ (res = false -> Forall run_failed evs)
    /\ (forall q, q <> path -> files s' !! q = files s !! q).
Proof.
  revert s. induction b as [|b IH]; intros s; simpl.
  - exists false, s, []. unfold ret.
    split; [reflexivity|]. split; [unfold executions, count; simpl; lia|].
    split; [discriminate|]. split; [constructor | reflexivity].
  - unfold bind at 1.
    destruct (execute_main_spec env path s) as (ok & text & E1). rewrite E1.
    cbn [fst snd]. set (s1 := mkSys (files s) (S (clock s))).
    destruct ok.
    + unfold ret. eexists _, _, _. split; [reflexivity|].
      split; [unfold executions, count; simpl; lia|].
      split; [intros _; exists [], text; reflexivity|].
      split; [discriminate | reflexivity].
    + unfold bind at 1.
      destruct (get_step_code_spec env path s1) as (code & E2). rewrite E2.
      set (s2 := mkSys (files s1) (S (clock s1))).
      assert (forall evs', Forall run_failed evs' -> executions evs' = 0 ->
                exists res s' evs,
                  (false, s2, [EvRun path None false text] ++ [EvRead path code] ++ evs')
                  = (res, s', evs)
                  /\ executions evs <= S b
                  /\ (res = true -> exists pre out, evs = pre ++ [EvRun path None true out])
                  /\ (res = false -> Forall run_failed evs)
                  /\ (forall q, q <> path -> files s' !! q = files s !! q)) as Stop.
      { intros evs' HF Hx. eexists _, _, _. split; [reflexivity|].
        split; [unfold executions in *; simpl; rewrite 2 count_cons, Hx; simpl; lia|].
        split; [discriminate|].
        split; [intros _; simpl; repeat constructor; assumption | reflexivity]. }
      destruct (truthy code); simpl.
      * unfold bind at 1.
        destruct (fix_main_spec env text code pd s2) as (reply & s3 & j & E3 & F3).
        rewrite E3.
        assert (Forall run_failed (repeat (EvSleep 10) j ++ [EvFixMain reply])) as HF
            by (apply Forall_app; split;
                [clear; induction j; simpl; constructor; auto; exact I
                | repeat constructor]).
        assert (executions (repeat (EvSleep 10) j ++ [EvFixMain reply]) = 0) as HX
            by (unfold executions; rewrite count_app, count_sleeps by reflexivity;
                reflexivity).
        destruct reply as [c|]; [destruct (truthy c)|].
        -- unfold bind at 1.
           destruct (update_step_code_spec env path c s3) as (okw & E4). rewrite E4.
           unfold bind at 1. cbn [emit].
           set (s4 := mkSys _ _).
           destruct (IH s4) as (res & s5 & evs & E5 & Hb & Hs & Hf & Hfr).
           rewrite E5. eexists _, _, _. split; [reflexivity|].
           split; [|split; [|split]].
           ++ unfold executions in *. simpl.
              rewrite 2 count_cons, !count_app, count_sleeps by reflexivity.
              simpl. rewrite !count_cons. simpl. lia.
           ++ intros Hr. destruct (Hs Hr) as (pre & out & ->).
              eexists (_ :: _ :: (repeat (EvSleep 10) j ++ [EvFixMain (Some c)])
                         ++ [EvUpdate path c okw] ++ [EvSleep 2] ++ pre), out.
              simpl. rewrite <- !app_assoc. reflexivity.
           ++ intros Hr. specialize (Hf Hr). simpl.
              constructor; [reflexivity|]. constructor; [exact I|].
              apply Forall_app. split; [exact HF|].
              constructor; [exact I|]. constructor; [exact I | exact Hf].
           ++ intros q Hq. rewrite (Hfr q Hq). subst s4. simpl.
              destruct okw; [rewrite lookup_insert_ne by congruence|];
                rewrite F3; reflexivity.
        -- unfold ret.
           destruct (Stop _ HF HX) as (res & s' & evs & E & H). 
           injection E as <- <- <-.
           eexists _, _, _. split; [simpl; rewrite app_nil_r; reflexivity|].
           destruct H as (H1 & H2 & H3 & H4).
           split; [exact H1|]. split; [exact H2|]. split; [exact H3|].
           intros q Hq. rewrite F3. reflexivity.
        -- unfold ret.
           destruct (Stop _ HF HX) as (res & s' & evs & E & H). 
           injection E as <- <- <-.
           eexists _, _, _. split; [simpl; rewrite app_nil_r; reflexivity|].
           destruct H as (H1 & H2 & H3 & H4).
           split; [exact H1|]. split; [exact H2|]. split; [exact H3|].
           intros q Hq. rewrite F3. reflexivity.
      * unfold ret.
        destruct (Stop [] (List.Forall_nil _) eq_refl) as (res & s' & evs & E & H).
        injection E as <- <- <-.
        eexists _, _, _. split; [reflexivity|]. exact H.
Qed.

(** X11.  [execute_and_fix_main] runs main.py at most [max_retries] times
    (never, when that is not positive); it returns [True] only right after
    a successful local run of main.py, and when it returns [False] every
    run has failed. *)
Theorem main_repair_is_bounded env path pd mr s :
  let r := execute_and_fix_main env path pd mr s in
  (Z.of_nat (executions (events_of r)) <= Z.max 0 mr)%Z
  /\ (result_of r = true ->
      exists pre out, events_of r = pre ++ [EvRun path None true out])
  /\ (result_of r = false -> Forall run_failed (events_of r)).
Proof.
  intros r. subst r. unfold execute_and_fix_main.
  destruct (repair_main_loop_spec env (Z.to_nat mr) path pd s)
    as (res & s' & evs & E & Hb & Hs & Hf & _).
  rewrite E. unfold result_of, events_of. simpl.
  split; [lia|]. split; assumption.
Qed.

Lemma main_repair_is_bounded_witness :
  (Z.of_nat (executions (events_of (execute_and_fix_main env_stubborn "solution/main.py"
                                      "problem" 2 sys_two))) <= 2)%Z.
Proof.
  apply (main_repair_is_bounded env_stubborn "solution/main.py" "problem" 2 sys_two).
Defined.

Lemma assemble_solution_path ast_parse env config steps s :
  result_of (assemble_solution ast_parse env config steps s) = None
  \/ result_of (assemble_solution ast_parse env config steps s)
     = Some (main_file config).
Proof.
  destruct (assemble_solution_spec ast_parse env config steps s)
    as (res & s' & evs & E & H0 & H1).
  rewrite E. unfold result_of. simpl.
  destruct (existsb (contributes ast_parse) evs).
  - destruct (H1 eq_refl) as (pre & code & ok & _ & ->). destruct ok; auto.
  - destruct (H0 eq_refl) as [-> _]. auto.
Qed.

Lemma transfers_app l1 l2 : transfers (l1 ++ l2) = transfers l1 ++ transfers l2.
Proof. unfold transfers. apply flat_map_app. Qed.

Lemma quiet_bind {A B} (m : M A) (k : A -> M B) :
  quiet_m m -> (forall a, quiet_m (k a)) -> quiet_m (bind m k).
Proof.
  unfold quiet_m, bind, events_of. intros Hm Hk s. specialize (Hm s).
  destruct (m s) as [[a s1] e1]. specialize (Hk a s1).
  destruct (k a s1) as [[b s2] e2]. simpl in *.
  rewrite transfers_app, Hm, Hk. reflexivity.
Qed.

Lemma quiet_ret {A} (a : A) : quiet_m (ret a).
Proof. intros s. reflexivity. Qed.

Lemma quiet_ask {A} (q : nat -> A) : quiet_m (ask q).
Proof. intros s. reflexivity. Qed.

Lemma quiet_get_files : quiet_m get_files.
Proof. intros s. reflexivity. Qed.

Lemma quiet_put_file p text : quiet_m (put_file p text).
Proof. intros s. reflexivity. Qed.

Lemma quiet_emit e : is_transfer e = false -> quiet_m (emit e).
Proof. intros H s. destruct e; try discriminate H; reflexivity. Qed.

Ltac quiet_step :=
  lazymatch goal with
  | |- quiet_m (bind _ _) => apply quiet_bind; [|intros ?]
  | |- quiet_m (ret _) => apply quiet_ret
  | |- quiet_m (ask _) => apply quiet_ask
  | |- quiet_m get_files => apply quiet_get_files
  | |- quiet_m (put_file _ _) => apply quiet_put_file
  | |- quiet_m (emit _) => apply quiet_emit; reflexivity
  | |- quiet_m (if ?b then _ else _) => destruct b
  | |- quiet_m (match ?x with _ => _ end) => destruct x
  | |- quiet_m _ => solve [auto]
  end.

Ltac quiet_tac := cbv zeta; repeat quiet_step.

Section Quiet.

Variable ast_parse : string -> option (list stmt).
Variable env : Env.
Variable config : Config.

Lemma quiet_request_loop k req : quiet_m (request_loop env k req).
Proof. induction k as [|k IH]; simpl; quiet_tac. Qed.

Lemma quiet_establish_connection server : quiet_m (establish_connection env server).
Proof. unfold establish_connection. quiet_tac. Qed.

Lemma quiet_run_step p er sc : quiet_m (run_step env p er sc).
Proof.
  unfold run_step, run_remote, run_local, execute_command, transfer_file.
  pose proof quiet_establish_connection. quiet_tac.
Qed.

Lemma quiet_get_step_code p : quiet_m (get_step_code env p).
Proof. unfold get_step_code. quiet_tac. Qed.

Lemma quiet_update_step_code p c : quiet_m (update_step_code env p c).
Proof. unfold update_step_code. quiet_tac. Qed.

Lemma quiet_repair_loop b p n pd er sc : quiet_m (repair_loop env b p n pd er sc).
Proof.
  induction b as [|b IH]; simpl; [quiet_tac|].
  pose proof quiet_run_step. pose proof quiet_get_step_code.
  pose proof quiet_update_step_code. pose proof quiet_request_loop.
  unfold fix_code_with_gpt4. quiet_tac.
Qed.

Lemma quiet_process_step step pd n : quiet_m (process_step ast_parse env config step pd n).
Proof.
  unfold process_step, generate_step_code, save_step_code, execute_and_fix_step,
    execute_and_fix_exit, visit_done.
  pose proof quiet_request_loop. pose proof quiet_repair_loop. quiet_tac.
Qed.

Lemma quiet_process_section steps pd c ex :
  quiet_m (process_section ast_parse env config steps pd c ex).
Proof.
  revert c ex. induction steps as [|step rest IH]; intros c ex; simpl;
    pose proof quiet_process_step; quiet_tac.
Qed.

Lemma quiet_process_plan plan pd c ex :
  quiet_m (process_plan ast_parse env config plan pd c ex).
Proof.
  revert c ex. induction plan as [|[title steps] rest IH]; intros c ex; simpl;
    pose proof quiet_process_section; quiet_tac.
Qed.

Lemma quiet_process_steps plan pd : quiet_m (process_steps ast_parse env config plan pd).
Proof. unfold process_steps. pose proof quiet_process_plan. quiet_tac. Qed.

Lemma quiet_assemble_loop steps imps execs :
  quiet_m (assemble_loop ast_parse env steps imps execs).
Proof.
  revert imps execs. induction steps as [|p rest IH]; intros imps execs; simpl;
    pose proof quiet_get_step_code; quiet_tac.
Qed.

Lemma quiet_repair_main_loop b path pd : quiet_m (repair_main_loop env b path pd).
Proof.
  induction b as [|b IH]; simpl; [quiet_tac|].
  pose proof quiet_get_step_code. pose proof quiet_update_step_code.
  pose proof quiet_request_loop.
  unfold execute_main, run_local, fix_main_with_gpt4. quiet_tac.
Qed.

Lemma quiet_assemble_and_execute_solution ex pd :
  quiet_m (assemble_and_execute_solution ast_parse env config ex pd).
Proof.
  unfold assemble_and_execute_solution, assemble_solution, execute_and_fix_main.
  pose proof quiet_assemble_loop. pose proof quiet_repair_main_loop. quiet_tac.
Qed.

End Quiet.

Lemma silent_bind {A B} (m : M A) (k : A -> M B) :
  silent_m m -> (forall a, silent_m (k a)) -> silent_m (bind m k).
Proof.
  unfold silent_m, bind, events_of, sys_of. intros Hm Hk s. specialize (Hm s).
  destruct (m s) as [[a s1] e1]. specialize (Hk a s1).
  destruct (k a s1) as [[b s2] e2]. simpl in *.
  destruct Hm as [-> <-], Hk as [-> <-]. auto.
Qed.

Lemma silent_ret {A} (a : A) : silent_m (ret a).
Proof. intros s. auto. Qed.

Lemma silent_ask {A} (q : nat -> A) : silent_m (ask q).
Proof. intros s. auto. Qed.

Ltac silent_step :=
  lazymatch goal with
  | |- silent_m (bind _ _) => apply silent_bind; [|intros ?]
  | |- silent_m (ret _) => apply silent_ret
  | |- silent_m (ask _) => apply silent_ask
  | |- silent_m (if ?b then _ else _) => destruct b
  | |- silent_m (match ?x with _ => _ end) => destruct x
  | |- silent_m _ => solve [auto]
  end.

Ltac silent_tac := cbv zeta; repeat silent_step.

Lemma silent_transfer_files env server dir rdir paths :
  silent_m (transfer_files env server dir rdir paths).
Proof.
  induction paths as [|p rest IH]; simpl; unfold execute_command, transfer_file;
    silent_tac.
Qed.

Lemma silent_transfer_solution_to_remote env dir server :
  silent_m (transfer_solution_to_remote env dir server).
Proof.
  unfold transfer_solution_to_remote, establish_connection, execute_command.
  pose proof (silent_transfer_files env server). silent_tac.
Qed.

Lemma deploy_spec env config servers s :
  exists s' evs,
    deploy env config servers s = (tt, s', evs)
    /\ forallb is_transfer evs = true
    /\ transfers evs = List.filter deployable servers
    /\ files s' = files s.
Proof.
  revert s. induction servers as [|server rest IH]; intros s; simpl.
  - exists s, []. auto.
  - fold (deployable server). destruct (deployable server).
    + unfold bind at 1.
      destruct (silent_transfer_solution_to_remote env (solution_directory config)
                  server s) as [He Hf].
      destruct (transfer_solution_to_remote env (solution_directory config) server s)
        as [[ok s1] e1].
      unfold events_of, sys_of in He, Hf. simpl in He, Hf. subst e1.
      unfold bind, emit. destruct (IH s1) as (s' & evs & E & H1 & H2 & H3).
      rewrite E. eexists _, _. split; [reflexivity|]. simpl.
      rewrite H1, H2, H3, Hf. auto.
    + apply IH.
Qed.

Lemma run_spec ast_parse env config plan pd s :
  exists ex s1 e1 res s' evs,
    process_steps ast_parse env config plan pd s = (ex, s1, e1)
    /\ run ast_parse env config plan pd s = (res, s', evs)
    /\ (res = None \/ res = Some 1%Z)
    /\ (res = None ->
        ex <> []
        /\ exists pre out post,
             evs = pre ++ EvRun (main_file config) None true out :: post
             /\ forallb is_transfer post = true)
    /\ transfers evs
       = match res with
         | None => List.filter deployable (remote_servers config)
         | Some _ => []
         end
    /\ (ex = [] -> res = Some 1%Z /\ evs = e1).
Proof.
  unfold run. unfold bind at 1.
  pose proof (quiet_process_steps ast_parse env config plan pd s) as Q1.
  destruct (process_steps ast_parse env config plan pd s) as [[ex s1] e1].
  unfold events_of in Q1. simpl in Q1.
  exists ex, s1, e1. destruct ex as [|p ex].
  - unfold ret. eexists _, _, _. split; [reflexivity|]. split; [reflexivity|].
    rewrite app_nil_r. split; [auto|]. split; [discriminate|]. split; [exact Q1 | auto].
  - unfold bind at 1.
    pose proof (quiet_assemble_and_execute_solution ast_parse env config (p :: ex) pd s1)
      as Q2.
    unfold assemble_and_execute_solution in *. unfold bind at 1 in Q2. unfold bind at 1.
    pose proof (assemble_solution_path ast_parse env config (p :: ex) s1) as HP.
    destruct (assemble_solution ast_parse env config (p :: ex) s1) as [[mp s2] e2].
    unfold result_of in HP. simpl in HP.
    destruct HP as [-> | ->].
    + unfold ret in *. unfold events_of in Q2. simpl in Q2.
      eexists _, _, _. split; [reflexivity|]. split; [reflexivity|].
      split; [auto|]. split; [discriminate|]. split; [|discriminate].
      rewrite !app_nil_r in *. rewrite transfers_app, Q1, Q2. reflexivity.
    + unfold execute_and_fix_main in *.
      destruct (repair_main_loop_spec env (Z.to_nat (max_retries config))
                  (main_file config) pd s2) as (res & s3 & evs & E & _ & Hs & _).
      rewrite E in *. unfold events_of in Q2. simpl in Q2.
      destruct res.
      * unfold bind at 1.
        destruct (deploy_spec env config (remote_servers config) s3)
          as (s4 & ed & ED & D1 & D2 & _).
        rewrite ED. unfold ret.
        eexists _, _, _. split; [reflexivity|]. split; [reflexivity|].
        split; [auto|]. split; [|split; [|discriminate]].
        -- intros _. split; [discriminate|].
           destruct (Hs eq_refl) as (pre & out & ->).
           exists (e1 ++ e2 ++ pre), out, ed. split; [|exact D1].
           rewrite !app_nil_r, <- !app_assoc. reflexivity.
        -- rewrite transfers_app in Q2.
           destruct (List.app_eq_nil _ _ Q2) as [Qa Qb].
           rewrite app_nil_r, !transfers_app, Q1, Qa, Qb, D2. reflexivity.
      * unfold ret. eexists _, _, _. split; [reflexivity|]. split; [reflexivity|].
        split; [auto|]. split; [discriminate|]. split; [|discriminate].
        rewrite app_nil_r, transfers_app, Q1, Q2. reflexivity.
Qed.

(** X12.  [run] either returns normally or exits with status 1.  It
    returns normally only when some step succeeded and main.py ran
    successfully; after that run it only transfers the solution, to every
    server with [execute_remotely] set and a non-empty [steps_to_execute],
    in configuration order, whether or not a transfer succeeds.  When it
    exits with status 1 nothing is transferred, and when no step succeeded
    it exits right after [process_steps]. *)
Theorem run_exit_status ast_parse env config plan pd s :
  let r := run ast_parse env config plan pd s in
  (result_of r = None \/ result_of r = Some 1%Z)
  /\ (result_of r = None ->
      result_of (process_steps ast_parse env config plan pd s) <> []
      /\ exists pre out post,
           events_of r = pre ++ EvRun (main_file config) None true out :: post
           /\ forallb is_transfer post = true)
  /\ transfers (events_of r)
     = match result_of r with
       | None => List.filter deployable (remote_servers config)
       | Some _ => []
       end
  /\ (result_of (process_steps ast_parse env config plan pd s) = [] ->
      result_of r = Some 1%Z
      /\ events_of r = events_of (process_steps ast_parse env config plan pd s)).
Proof.
  intros r. subst r.
  destruct (run_spec ast_parse env config plan pd s)
    as (ex & s1 & e1 & res & s' & evs & EP & ER & H).
  rewrite EP, ER. exact H.
Qed.

Lemma run_exit_status_witness :
  transfers (events_of (run sample_parse env_first_lost
                          (sample_config 1 [server_a; server_idle; server_b])
                          two_steps "problem" sys_empty))
  = [server_a; server_b].
Proof.
  destruct (run_exit_status sample_parse env_first_lost
              (sample_config 1 [server_a; server_idle; server_b])
              two_steps "problem" sys_empty) as (_ & _ & H & _).
  rewrite H. vm_compute. reflexivity.
Defined.

Lemma run_step_no_key env p server s :
  truthy (ssh_key_path server) = true ->
  os_path_exists env (clock s) (ssh_key_path server) = false ->
  run_step env p true (Some server) s
  = ((false, "SSH connection failed."), mkSys (files s) (S (clock s)),
     [EvRun p (Some server) false "SSH connection failed."]).
Proof.
  intros Hk He. unfold run_step, remote_target, run_remote, establish_connection.
  rewrite Hk. unfold bind, ask, ret, emit. simpl. rewrite He. reflexivity.
Qed.

Lemma sleeps_connection_failed j k : Forall connection_failed (repeat (EvSleep k) j).
Proof. induction j; simpl; constructor; auto. exact I. Qed.

Lemma repair_loop_no_key env b p n pd server s :
  truthy (ssh_key_path server) = true ->
  (forall t, os_path_exists env t (ssh_key_path server) = false) ->
  exists x s' evs,
    repair_loop env b p n pd true (Some server) s = (x, s', evs)
    /\ x <> ExitSuccess
    /\ Forall connection_failed evs.
Proof.
  intros Hk He. revert s. induction b as [|b IH]; intros s; simpl.
  - eexists _, _, _. split; [reflexivity|]. split; [discriminate | constructor].
  - unfold bind at 1. rewrite (run_step_no_key env p server s Hk (He _)).
    cbn [fst snd]. unfold bind at 1.
    set (s1 := mkSys (files s) (S (clock s))).
    destruct (get_step_code_spec env p s1) as (code & E2). rewrite E2.
    destruct (truthy code); simpl.
    + unfold bind at 1.
      match goal with
      | |- context [fix_code_with_gpt4 env ?e ?c ?m ?d ?st] =>
          destruct (fix_code_spec env e c m d st) as (reply & s3 & j & E3 & _)
      end.
      rewrite E3.
      destruct reply as [c|]; [destruct (truthy c)|].
      * unfold bind at 1.
        destruct (update_step_code_spec env p c s3) as (ok & E4). rewrite E4.
        unfold bind at 1. cbn [emit].
        match goal with
        | |- context [repair_loop env b p n pd true (Some server) ?st] =>
            destruct (IH st) as (x & s5 & evs & E5 & Hx & HF)
        end.
        rewrite E5. eexists _, _, _. split; [reflexivity|]. split; [exact Hx|].
        simpl. constructor; [split; reflexivity|]. constructor; [exact I|].
        apply Forall_app. split.
        -- apply Forall_app. split; [apply sleeps_connection_failed | repeat constructor].
        -- constructor; [exact I|]. constructor; [exact I | exact HF].
      * unfold ret. eexists _, _, _. split; [reflexivity|]. split; [discriminate|].
        simpl. constructor; [split; reflexivity|]. constructor; [exact I|].
        rewrite app_nil_r. apply Forall_app.
        split; [apply sleeps_connection_failed | repeat constructor].
      * unfold ret. eexists _, _, _. split; [reflexivity|]. split; [discriminate|].
        simpl. constructor; [split; reflexivity|]. constructor; [exact I|].
        rewrite app_nil_r. apply Forall_app.
        split; [apply sleeps_connection_failed | repeat constructor].
    + unfold ret. eexists _, _, _. split; [reflexivity|]. split; [discriminate|].
      repeat constructor.
Qed.

(** X13.  A step sent to a server whose configured SSH key file does not
    exist never succeeds: every run of it ends in "SSH connection
    failed." and [execute_and_fix_step] returns [False]. *)
Theorem missing_key_never_succeeds env p n pd mr server s :
  truthy (ssh_key_path server) = true ->
  (forall t, os_path_exists env t (ssh_key_path server) = false) ->
  let r := execute_and_fix_step env p n pd mr true (Some server) s in
  result_of r = false /\ Forall connection_failed (events_of r).
Proof.
  intros Hk He r. subst r. unfold execute_and_fix_step, execute_and_fix_exit.
  destruct (repair_loop_no_key env (Z.to_nat mr) p n pd server s Hk He)
    as (x & s' & evs & E & Hx & HF).
  unfold bind. rewrite E. unfold ret, result_of, events_of. simpl.
  rewrite app_nil_r. split; [|exact HF]. destruct x; try reflexivity. contradiction.
Qed.

Lemma missing_key_never_succeeds_witness :
  let r := execute_and_fix_step env_no_key path2 2 "problem" 2 true (Some server_a)
             sys_two in
  result_of r = false /\ Forall connection_failed (events_of r).
Proof.
  apply (missing_key_never_succeeds env_no_key path2 2 "problem" 2 server_a sys_two).
  - reflexivity.
  - reflexivity.
Defined.

(** X14.  When the remote command raises, [execute_command] returns the
    text of the exception in the place of stderr, and [run_step] judges the
    run by that text alone: a failure with the message as its error, but a
    success with empty output when the message is empty. *)
Theorem transport_fault_is_judged_by_its_message env p er sc server s s1 s2 message :
  remote_target er sc = Some server ->
  establish_connection env server s = (true, s1, []) ->
  transfer_file env server p ("/tmp/" +:+ basename p) s1 = (true, s2, []) ->
  exec_command env (clock s2) server (remote_command p) = ExecRaised message ->
  result_of (run_step env p er sc s)
  = if truthy message then (false, message) else (true, "").
Proof.
  intros Ht Hc Hf Hx. unfold run_step, result_of. rewrite Ht.
  unfold run_remote, bind. rewrite Hc. cbv beta iota zeta. cbn [negb].
  rewrite Hf. cbv beta iota zeta. cbn [negb].
  unfold execute_command, bind, ask, ret, emit.
  unfold remote_command in Hx. rewrite Hx. cbn [fst snd].
  destruct (truthy message); reflexivity.
Qed.

Lemma transport_fault_is_judged_by_its_message_witness :
  result_of (run_step env_silent_fault path2 true (Some server_a) sys_empty)
  = (true, "").
Proof.
  exact (transport_fault_is_judged_by_its_message env_silent_fault path2 true
           (Some server_a) server_a sys_empty (mkSys ∅ 2) (mkSys ∅ 3) ""
           eq_refl eq_refl eq_refl eq_refl).
Defined.

Lemma attempts_ledger p tg n b fs x evs fs' :
  attempts p tg n b fs x evs fs' ->
  executions evs
  = updates evs + match x with ExitMaxRetries => 0 | _ => 1 end
  /\ oracle_calls evs
     = updates evs + match x with ExitNoFix => 1 | _ => 0 end.
Proof.
  unfold executions, oracle_calls, updates.
  induction 1 as [fs | b fs out | b fs err | b fs err code j reply Hc Hu
                 | b fs err code j c ok x evs fs' Hc Ht _ IH];
    try (cbn; lia).
  - rewrite !count_cons, !count_app, !count_sleeps by reflexivity. cbn. lia.
  - rewrite !count_retry. simpl. lia.
Qed.

(** X15.  In [execute_and_fix_step] every run after the first follows
    exactly one call of [update_step_code], and every update one reply of
    the oracle: the runs are the updates or one more, the oracle calls are
    the updates or one more, and on success there is exactly one run more
    than updates and no oracle call without its update. *)
Theorem reruns_match_corrections env p n pd mr er sc s :
  let r := execute_and_fix_step env p n pd mr er sc s in
  updates (events_of r) <= executions (events_of r) <= updates (events_of r) + 1
  /\ updates (events_of r) <= oracle_calls (events_of r) <= updates (events_of r) + 1
  /\ (result_of r = true ->
      executions (events_of r) = updates (events_of r) + 1
      /\ oracle_calls (events_of r) = updates (events_of r)).
Proof.
  intros r. subst r.
  destruct (execute_and_fix_step_attempts env p n pd mr er sc s)
    as (x & s' & evs & E & _ & A).
  rewrite E. unfold events_of, result_of. simpl.
  destruct (attempts_ledger _ _ _ _ _ _ _ _ A) as [H1 H2].
  destruct x; simpl; repeat split; try lia; try discriminate.
Qed.

Lemma reruns_match_corrections_witness :
  let r := execute_and_fix_step env_readonly path1 1 "problem" 2 false None sys_two in
  updates (events_of r) <= executions (events_of r) <= updates (events_of r) + 1.
Proof.
  apply (reruns_match_corrections env_readonly path1 1 "problem" 2 false None sys_two).
Defined.

Lemma dict_lookup_app k d1 d2 :
  dict_lookup k (d1 ++ d2)
  = match dict_lookup k d1 with Some v => Some v | None => dict_lookup k d2 end.
Proof.
  induction d1 as [|[k' v] d1 IH]; simpl; [reflexivity|].
  destruct (String.eqb k k'); [reflexivity | exact IH].
Qed.

Lemma dict_lookup_setdefault k k' v d :
  dict_lookup k (setdefault k' v d)
  = match dict_lookup k d with
    | Some x => Some x
    | None => if String.eqb k k' then Some v else None
    end.
Proof.
  unfold setdefault. destruct (dict_lookup k' d) as [x|] eqn:E.
  - destruct (dict_lookup k d) eqn:E'; [reflexivity|].
    destruct (String.eqb_spec k k') as [->|]; [congruence | reflexivity].
  - rewrite dict_lookup_app. simpl. destruct (dict_lookup k d); reflexivity.
Qed.

Lemma dict_lookup_set_defaults k defaults d :
  dict_lookup k (set_defaults defaults d)
  = match dict_lookup k d with
    | Some x => Some x
    | None => dict_lookup k defaults
    end.
Proof.
  revert d. induction defaults as [|[k' v] rest IH]; intros d; simpl.
  - destruct (dict_lookup k d); reflexivity.
  - rewrite IH, dict_lookup_setdefault.
    destruct (dict_lookup k d); [reflexivity|].
    destruct (String.eqb k k'); reflexivity.
Qed.

Lemma set_defaults_prefix defaults d :
  exists added, set_defaults defaults d = d ++ added.
Proof.
  revert d. induction defaults as [|[k v] rest IH]; intros d; simpl.
  - exists []. rewrite app_nil_r. reflexivity.
  - destruct (IH (setdefault k v d)) as (added & ->). unfold setdefault.
    destruct (dict_lookup k d); [eauto|].
    exists ((k, v) :: added). rewrite <- app_assoc. reflexivity.
Qed.

Lemma load_config_mapping entries :
  load_config (Some (YDict entries)) = Some (set_defaults DEFAULT_CONFIG entries).
Proof. destruct entries; reflexivity. Qed.

(** X16.  [load_config] on a mapping keeps every entry of the file, in
    place and with its value, also a null one, and appends the defaults of
    the missing keys: a key reads as the file has it when the file has it,
    and as [DEFAULT_CONFIG] has it otherwise. *)
Theorem load_config_keeps_user_values entries config k :
  load_config (Some (YDict entries)) = Some config ->
  dict_lookup k config
  = match dict_lookup k entries with
    | Some v => Some v
    | None => dict_lookup k DEFAULT_CONFIG
    end
  /\ exists added, config = entries ++ added.
Proof.
  rewrite load_config_mapping. intros H.
  assert (config = set_defaults DEFAULT_CONFIG entries) as -> by congruence.
  split; [apply dict_lookup_set_defaults | apply set_defaults_prefix].
Qed.

Lemma load_config_keeps_user_values_witness :
  exists config,
    load_config (Some user_file) = Some config
    /\ dict_lookup "max_retries" config = Some (YInt 2)
    /\ dict_lookup "log_level" config = Some YNone
    /\ dict_lookup "openai_model" config = Some (YStr "gpt-4").
Proof.
  eexists. split; [reflexivity|].
  split; [|split].
  - exact (proj1 (load_config_keeps_user_values
                    [("max_retries", YInt 2); ("log_level", YNone)] _
                    "max_retries" eq_refl)).
  - exact (proj1 (load_config_keeps_user_values
                    [("max_retries", YInt 2); ("log_level", YNone)] _
                    "log_level" eq_refl)).
  - exact (proj1 (load_config_keeps_user_values
                    [("max_retries", YInt 2); ("log_level", YNone)] _
                    "openai_model" eq_refl)).
Defined.

(** X17.  The defaults pass [validate_config], and so does every loaded
    file that sets none of the keys of [DEFAULT_CONFIG]: when validation
    of a loaded mapping fails, the file itself gives a value to one of
    those keys. *)
Theorem validation_blames_user_values entries config :
  load_config (Some (YDict entries)) = Some config ->
  validate_config config <> Valid ->
  exists k v,
    dict_lookup k entries = Some v /\ dict_lookup k DEFAULT_CONFIG <> None.
Proof.
  rewrite load_config_mapping. intros H.
  assert (config = set_defaults DEFAULT_CONFIG entries) as -> by congruence.
  clear H. unfold validate_config, dict_get.
  rewrite !dict_lookup_set_defaults.
  destruct (dict_lookup "steps_directory" entries) as [v|] eqn:E1;
    [intros _; exists "steps_directory", v; split; [exact E1 | discriminate]|].
  destruct (dict_lookup "solution_directory" entries) as [v|] eqn:E2;
    [intros _; exists "solution_directory", v; split; [exact E2 | discriminate]|].
  destruct (dict_lookup "max_retries" entries) as [v|] eqn:E3;
    [intros _; exists "max_retries", v; split; [exact E3 | discriminate]|].
  destruct (dict_lookup "openai_model" entries) as [v|] eqn:E4;
    [intros _; exists "openai_model", v; split; [exact E4 | discriminate]|].
  destruct (dict_lookup "log_file" entries) as [v|] eqn:E5;
    [intros _; exists "log_file", v; split; [exact E5 | discriminate]|].
  destruct (dict_lookup "log_level" entries) as [v|] eqn:E6;
    [intros _; exists "log_level", v; split; [exact E6 | discriminate]|].
  destruct (dict_lookup "remote_servers" entries) as [v|] eqn:E7;
    [intros _; exists "remote_servers", v; split; [exact E7 | discriminate]|].
  intros H. exfalso. apply H. vm_compute. reflexivity.
Qed.

Lemma validation_blames_user_values_witness :
  validate_config (set_defaults DEFAULT_CONFIG wrong_file)
  = ValueError "max_retries must be an integer."
  /\ exists k v,
       dict_lookup k wrong_file = Some v /\ dict_lookup k DEFAULT_CONFIG <> None.
Proof.
  split; [vm_compute; reflexivity|].
  apply (validation_blames_user_values wrong_file
           (set_defaults DEFAULT_CONFIG wrong_file) eq_refl).
  vm_compute. discriminate.
Defined.

Lemma plan_get_set k v plan k' :
  plan_get k' (plan_set k v plan) = if String.eqb k' k then Some v else plan_get k' plan.
Proof.
  induction plan as [|[k0 v0] rest IH]; simpl.
  - destruct (String.eqb k' k); reflexivity.
  - destruct (String.eqb_spec k k0) as [->|Hne]; simpl.
    + destruct (String.eqb_spec k' k0); reflexivity.
    + destruct (String.eqb_spec k' k0) as [->|Hne'].
      * destruct (String.eqb_spec k0 k); [congruence | reflexivity].
      * exact IH.
Qed.

Lemma plan_set_keys k v plan :
  map fst (plan_set k v plan)
  = if existsb (String.eqb k) (map fst plan) then map fst plan else map fst plan ++ [k].
Proof.
  induction plan as [|[k0 v0] rest IH]; simpl; [reflexivity|].
  destruct (String.eqb_spec k k0) as [->|Hne]; simpl; [reflexivity|].
  rewrite IH. destruct (existsb (String.eqb k) (map fst rest)); reflexivity.
Qed.

Lemma plan_set_values k v plan :
  v <> [] -> Forall (fun e => snd e <> []) plan ->
  Forall (fun e => snd e <> []) (plan_set k v plan).
Proof.
  intros Hv. induction plan as [|[k0 v0] rest IH]; simpl; intros H.
  - constructor; [exact Hv | constructor].
  - inversion H; subst. destruct (String.eqb k k0).
    + constructor; assumption.
    + constructor; [assumption | apply IH; assumption].
Qed.

Lemma existsb_eqb_in k l : existsb (String.eqb k) l = true <-> In k l.
Proof.
  rewrite existsb_exists. split.
  - intros (x & Hin & Hx). apply String.eqb_eq in Hx. subst. exact Hin.
  - intros Hin. exists k. split; [exact Hin | apply String.eqb_refl].
Qed.

Lemma plan_set_nodup k v plan :
  List.NoDup (map fst plan) -> List.NoDup (map fst (plan_set k v plan)).
Proof.
  intros H. rewrite plan_set_keys.
  destruct (existsb (String.eqb k) (map fst plan)) eqn:E; [exact H|].
  apply List.NoDup_app; [exact H | constructor; [intros [] | constructor] |].
  intros x Hx [<-|[]].
  apply existsb_eqb_in in Hx. congruence.
Qed.

Lemma first_occurrences_ext seen seen' l :
  (forall k, In k seen <-> In k seen') ->
  first_occurrences seen l = first_occurrences seen' l.
Proof.
  revert seen seen'. induction l as [|k rest IH]; intros seen seen' H; simpl; [reflexivity|].
  assert (existsb (String.eqb k) seen = existsb (String.eqb k) seen') as ->.
  { destruct (existsb (String.eqb k) seen) eqn:E1, (existsb (String.eqb k) seen') eqn:E2;
      try reflexivity.
    - apply existsb_eqb_in, H, existsb_eqb_in in E1. congruence.
    - apply existsb_eqb_in, H, existsb_eqb_in in E2. congruence. }
  destruct (existsb (String.eqb k) seen').
  - apply IH, H.
  - f_equal. apply IH. intros x. simpl. rewrite H. reflexivity.
Qed.

Section PlanLemmas.

Variable section_pattern_search : string -> option string.
Variable step_pattern_findall : string -> list string.

Lemma section_entry_steps section t steps : (section_entry section_pattern_search step_pattern_findall) section = Some (t, steps) -> steps <> [].
Proof.
  unfold section_entry. destruct (section_pattern_search section); [|discriminate].
  destruct (step_pattern_findall section); [discriminate|].
  intros [= _ <-]. discriminate.
Qed.

Lemma build_plan_keys sections plan :
  map fst (fold_left (add_section section_pattern_search step_pattern_findall) sections plan)
  = map fst plan ++ first_occurrences (map fst plan) (map fst (omap (section_entry section_pattern_search step_pattern_findall) sections)).
Proof.
  revert plan. induction sections as [|sec rest IH]; intros plan; simpl.
  - rewrite app_nil_r. reflexivity.
  - rewrite IH. unfold add_section. destruct ((section_entry section_pattern_search step_pattern_findall) sec) as [[t steps]|]; simpl; [|reflexivity].
    rewrite plan_set_keys.
    destruct (existsb (String.eqb t) (map fst plan)) eqn:E; [reflexivity|].
    rewrite <- app_assoc. simpl. do 2 f_equal.
    apply first_occurrences_ext. intros k. rewrite in_app_iff. simpl. tauto.
Qed.

Lemma plan_get_app k l1 l2 :
  plan_get k (l1 ++ l2)
  = match plan_get k l1 with Some v => Some v | None => plan_get k l2 end.
Proof.
  induction l1 as [|[k0 v0] rest IH]; simpl; [reflexivity|].
  destruct (String.eqb k k0); [reflexivity | exact IH].
Qed.

Lemma omap_step {A B} (f : A -> option B) x l :
  omap f (x :: l) = match f x with Some y => y :: omap f l | None => omap f l end.
Proof. reflexivity. Qed.

Lemma build_plan_get sections plan k :
  plan_get k (fold_left (add_section section_pattern_search step_pattern_findall) sections plan)
  = match plan_get k (rev (omap (section_entry section_pattern_search step_pattern_findall) sections)) with
    | Some v => Some v
    | None => plan_get k plan
    end.
Proof.
  revert plan. induction sections as [|sec rest IH]; intros plan; [reflexivity|].
  cbn [fold_left]. rewrite IH, omap_step. clear IH. unfold add_section.
  destruct (section_entry section_pattern_search step_pattern_findall sec) as [[t steps]|];
    [|reflexivity].
  cbn [rev]. rewrite plan_get_app, plan_get_set.
  destruct (plan_get k (rev (omap (section_entry section_pattern_search step_pattern_findall) rest)));
    [reflexivity|].
  cbn [plan_get]. destruct (String.eqb k t); reflexivity.
Qed.

Lemma build_plan_nodup sections plan :
  List.NoDup (map fst plan) -> List.NoDup (map fst (fold_left (add_section section_pattern_search step_pattern_findall) sections plan)).
Proof.
  revert plan. induction sections as [|sec rest IH]; intros plan H; simpl; [exact H|].
  apply IH. unfold add_section. destruct ((section_entry section_pattern_search step_pattern_findall) sec) as [[t steps]|]; [|exact H].
  apply plan_set_nodup, H.
Qed.

Lemma build_plan_values sections plan :
  Forall (fun e => snd e <> []) plan ->
  Forall (fun e => snd e <> []) (fold_left (add_section section_pattern_search step_pattern_findall) sections plan).
Proof.
  revert plan. induction sections as [|sec rest IH]; intros plan H; simpl; [exact H|].
  apply IH. unfold add_section. destruct ((section_entry section_pattern_search step_pattern_findall) sec) as [[t steps]|] eqn:E; [|exact H].
  apply plan_set_values; [exact (section_entry_steps _ _ _ E) | exact H].
Qed.

Lemma load_plan_some file plan :
  load_plan section_pattern_search step_pattern_findall file = Some plan ->
  exists content,
    file = Some content /\ plan = fold_left (add_section section_pattern_search step_pattern_findall) (split_dashes content) [] /\ plan <> [].
Proof.
  unfold load_plan. destruct file as [content|]; [|discriminate].
  destruct (fold_left (add_section section_pattern_search step_pattern_findall) (split_dashes content) []) as [|e rest] eqn:E; [discriminate|].
  intros [= <-]. exists content. rewrite E. repeat split. discriminate.
Qed.

End PlanLemmas.

(** X18.  A plan [load_plan] returns is never empty, has no title twice
    and no section without steps; and it exits instead of returning only
    when the file cannot be read or no piece between the delimiters has
    both a title and a step. *)
Theorem loaded_plan_is_a_dict section_pattern_search step_pattern_findall file :
  match load_plan section_pattern_search step_pattern_findall file with
  | Some plan =>
      plan <> [] /\ List.NoDup (map fst plan) /\ Forall (fun e => snd e <> []) plan
  | None =>
      forall content, file = Some content ->
        Forall (fun section =>
                  section_entry section_pattern_search step_pattern_findall section = None)
               (split_dashes content)
  end.
Proof.
  destruct (load_plan section_pattern_search step_pattern_findall file) as [plan|] eqn:E.
  - destruct (load_plan_some _ _ _ _ E) as (content & -> & -> & Hne).
    split; [exact Hne|]. split.
    + apply build_plan_nodup. constructor.
    + apply build_plan_values. constructor.
  - intros content ->. unfold load_plan in E.
    destruct (fold_left _ (split_dashes content) []) as [|e rest] eqn:F; [|discriminate].
    apply (f_equal (map fst)) in F. rewrite build_plan_keys in F. simpl in F.
    clear E. induction (split_dashes content) as [|sec rest IH]; [constructor|].
    simpl in F. destruct (section_entry _ _ sec) as [[t steps]|] eqn:S; [discriminate F|].
    constructor; [exact S | apply IH, F].
Qed.

Lemma loaded_plan_is_a_dict_witness :
  let plan := [("Setup", ["fetch"]); ("Build", ["compile"])] in
  plan <> [] /\ List.NoDup (map fst plan) /\ Forall (fun e => snd e <> []) plan.
Proof.
  exact (loaded_plan_is_a_dict sample_title sample_steps (Some sample_plan_text)).
Defined.

(** X19.  Only the sections with a title and at least one step count.
    When several of them share a title, the plan has that title once, at
    the place of the first of them, with the steps of the last of them:
    the steps of the earlier ones are dropped, and a section of that title
    without steps changes nothing. *)
Theorem repeated_title_keeps_place_and_takes_last_steps
  section_pattern_search step_pattern_findall content plan :
  load_plan section_pattern_search step_pattern_findall (Some content) = Some plan ->
  let entries :=
    omap (section_entry section_pattern_search step_pattern_findall) (split_dashes content) in
  map fst plan = first_occurrences [] (map fst entries)
  /\ forall title, plan_get title plan = plan_get title (rev entries).
Proof.
  intros E entries. destruct (load_plan_some _ _ _ _ E) as (c & [= <-] & -> & _).
  split.
  - rewrite build_plan_keys. reflexivity.
  - intros title. rewrite build_plan_get. simpl.
    fold entries. destruct (plan_get title (rev entries)); reflexivity.
Qed.

Lemma repeated_title_keeps_place_and_takes_last_steps_witness :
  load_plan sample_title sample_steps (Some sample_plan_text)
  = Some [("Setup", ["fetch"]); ("Build", ["compile"])]
  /\ load_plan sample_title sample_steps (Some sample_plan_late)
     = Some [("Setup", ["load"; "clean"]); ("Build", ["compile"])]
  /\ plan_get "Setup" [("Setup", ["load"; "clean"]); ("Build", ["compile"])]
     = Some ["load"; "clean"].
Proof.
  assert (load_plan sample_title sample_steps (Some sample_plan_late)
          = Some [("Setup", ["load"; "clean"]); ("Build", ["compile"])]) as E
      by (vm_compute; reflexivity).
  split; [vm_compute; reflexivity|]. split; [exact E|].
  destruct (repeated_title_keeps_place_and_takes_last_steps
              sample_title sample_steps sample_plan_late _ E) as [_ K].
  rewrite K. vm_compute. reflexivity.
Defined.

(** X20.  [load_plan] and [process_steps] compose: a plan that was loaded
    starts with a section that has a step, and [process_steps] visits that
    step first, as ordinal 1. *)
Theorem loaded_plan_has_a_first_step
  section_pattern_search step_pattern_findall ast_parse env config file plan pd s :
  load_plan section_pattern_search step_pattern_findall file = Some plan ->
  exists title first_step more_steps later_sections later_visits,
    plan = (title, first_step :: more_steps) :: later_sections
    /\ visited (events_of (process_steps ast_parse env config plan pd s))
       = (1, first_step) :: later_visits.
Proof.
  intros E. destruct (load_plan_some _ _ _ _ E) as (content & _ & Hp & Hne).
  assert (Forall (fun e => snd e <> []) plan) as Hv
    by (rewrite Hp; apply build_plan_values; constructor).
  clear Hp.
  destruct plan as [|[title steps] later]; [congruence|].
  inversion Hv as [|? ? Hs _]; subst. simpl in Hs.
  destruct steps as [|first_step more]; [congruence|].
  destruct (process_steps_visits ast_parse env config
              ((title, first_step :: more) :: later) pd s) as (ex & s' & evs & R & V).
  rewrite R. unfold events_of. simpl.
  rewrite (visits_visited _ _ _ _ _ V). simpl.
  eauto 10.
Qed.

Lemma loaded_plan_has_a_first_step_witness :
  exists title first_step more_steps later_sections later_visits,
    [("Setup", ["fetch"]); ("Build", ["compile"])]
    = (title, first_step :: more_steps) :: later_sections
    /\ visited (events_of (process_steps sample_parse env_steps (sample_config 2 [])
                             [("Setup", ["fetch"]); ("Build", ["compile"])] "pd" sys_empty))
       = (1, first_step) :: later_visits.
Proof.
  apply (loaded_plan_has_a_first_step sample_title sample_steps sample_parse env_steps
           (sample_config 2 []) (Some sample_plan_text)).
  vm_compute. reflexivity.
Defined.

Lemma remove_existing_frees name faults d d1 :
  remove_existing name faults d = inl d1 ->
  (name ∉ container_names d1)
  /\ container_names d1 = container_names d ∖ {[name]}.
Proof.
  unfold remove_existing. destruct (get_raises faults); [discriminate|].
  destruct (decide (name ∈ container_names d)) as [Hin|Hout].
  - destruct (remove_raises faults); [discriminate|]. intros [= <-]. simpl.
    split; [set_solver | reflexivity].
  - intros [= <-]. split; [exact Hout | set_solver].
Qed.

(** X21.  When no call to the daemon raises, [run_container] does not
    fail on a container of the same name left by an earlier run: the stale
    container is removed first, the result is the logs with success exactly
    when the reported [StatusCode] is 0 (a missing one counts as failure),
    and afterwards the container exists beside those that existed. *)
Theorem rerun_replaces_stale_container name faults d :
  quiet_daemon faults ->
  let r := run_container name faults d in
  fst r = (bool_decide (status_code faults = Some 0%Z), container_logs faults)
  /\ container_names (snd r) = {[name]} ∪ container_names d.
Proof.
  intros (Hg & Hr & Hx & Hw & Hl) r. subst r. unfold run_container.
  destruct (remove_existing name faults d) as [d1|e] eqn:E.
  2:{ unfold remove_existing in E. rewrite Hg, Hr in E.
      destruct (decide (name ∈ container_names d)); discriminate E. }
  destruct (remove_existing_frees _ _ _ _ E) as [Hfree Hnames].
  unfold containers_run. rewrite decide_False by exact Hfree.
  rewrite Hx, Hw, Hl. simpl. split.
  - f_equal. destruct (status_code faults) as [c|].
    + destruct (Z.eqb_spec c 0) as [->|Hc].
      * rewrite bool_decide_eq_true_2; reflexivity.
      * rewrite bool_decide_eq_false_2; [reflexivity | congruence].
    + rewrite bool_decide_eq_false_2; [reflexivity | discriminate].
  - rewrite Hnames. apply set_eq. intros x.
    rewrite !elem_of_union, elem_of_difference, !elem_of_singleton.
    destruct (decide (x = name)); tauto.
Qed.

Lemma rerun_replaces_stale_container_witness :
  fst (run_container "python-executor-container" (no_faults (Some 0%Z) "done")
         (mkDaemon {[ "python-executor-container" ]}))
  = (true, "done").
Proof.
  apply (rerun_replaces_stale_container "python-executor-container"
           (no_faults (Some 0%Z) "done") (mkDaemon {[ "python-executor-container" ]})).
  repeat split.
Defined.

(** X22.  [cleanup_container] run twice does what it does once; it never
    adds a container; and when the daemon raises nothing, no container of
    that name is left. *)
Theorem cleanup_is_idempotent name faults d :
  cleanup_container name faults (cleanup_container name faults d)
  = cleanup_container name faults d
  /\ (get_raises faults = None -> remove_raises faults = None ->
      name ∉ container_names (cleanup_container name faults d))
  /\ container_names (cleanup_container name faults d) ⊆ container_names d.
Proof.
  unfold cleanup_container.
  destruct (remove_existing name faults d) as [d1|e] eqn:E.
  - destruct (remove_existing_frees _ _ _ _ E) as [Hfree Hnames].
    assert (remove_existing name faults d1 = inl d1) as ->.
    { unfold remove_existing in *. destruct (get_raises faults); [discriminate|].
      rewrite decide_False by exact Hfree. reflexivity. }
    split; [reflexivity|]. split; [intros _ _; exact Hfree | set_solver].
  - rewrite E. split; [reflexivity|]. split; [|set_solver].
    intros Hg Hr. unfold remove_existing in E. rewrite Hg, Hr in E.
    destruct (decide (name ∈ container_names d)); discriminate E.
Qed.

Lemma cleanup_is_idempotent_witness :
  "python-executor-container"
  ∉ container_names (cleanup_container "python-executor-container" (no_faults None "")
                       (mkDaemon {[ "python-executor-container"; "other" ]})).
Proof.
  apply (cleanup_is_idempotent "python-executor-container" (no_faults None "")
           (mkDaemon {[ "python-executor-container"; "other" ]})); reflexivity.
Defined.

Lemma transfer_files_result env server dir paths put s :
  (forall t l r, sftp_put env t server l r = put l r) ->
  result_of (transfer_files env server dir
               ("/home/" +:+ username server +:+ "/solution") paths s)
  = forallb (fun p => put p (remote_path_of env dir server p)) paths.
Proof.
  intros Hput. revert s. induction paths as [|p rest IH]; intros s; [reflexivity|].
  cbn [transfer_files forallb]. cbv zeta.
  unfold bind at 1. unfold execute_command at 1. unfold bind at 1, ask at 1, ret at 1.
  cbn [fst snd]. unfold bind at 1. unfold transfer_file at 1, ask at 1.
  cbn [clock files]. rewrite Hput. fold (remote_path_of env dir server p).
  destruct (put p (remote_path_of env dir server p)); cbn [negb andb].
  - match goal with
    | |- context [transfer_files env server dir ?rd rest ?st] =>
        specialize (IH st); destruct (transfer_files env server dir rd rest st)
          as [[b s2] e2]
    end.
    unfold result_of in *. simpl in *. exact IH.
  - reflexivity.
Qed.

(** X23.  [transfer_solution_to_remote] returns [True] exactly when the
    connection is made and the server accepts every file that [os.walk]
    yields, each under /home/<username>/solution/<path relative to the
    solution directory>; what the [mkdir] commands answer does not
    matter. *)
Theorem transfer_needs_connection_and_every_file env dir server put s :
  (forall t l r, sftp_put env t server l r = put l r) ->
  exists t,
    result_of (transfer_solution_to_remote env dir server s)
    = result_of (establish_connection env server s)
      && forallb (fun p => put p (remote_path_of env dir server p))
           (walked_files (os_walk env t dir)).
Proof.
  intros Hput. unfold transfer_solution_to_remote. unfold bind at 1.
  destruct (establish_connection env server s) as [[connected s1] e1].
  unfold result_of at 2. cbn [fst]. destruct connected; cbn [negb andb].
  - unfold bind at 1. unfold execute_command at 1. unfold bind at 1, ask at 1, ret at 1.
    cbn [fst snd]. unfold bind at 1. unfold ask at 1. cbn [clock files fst snd].
    exists (S (clock s1)).
    match goal with
    | |- context [transfer_files env server dir ?rd ?ps ?st] =>
        pose proof (transfer_files_result env server dir ps put st Hput) as T;
        destruct (transfer_files env server dir rd ps st) as [[b s2] e2]
    end.
    unfold result_of in *. simpl in *. exact T.
  - exists 0. reflexivity.
Qed.

Lemma transfer_needs_connection_and_every_file_witness :
  result_of (transfer_solution_to_remote env_steps "solution" server_a sys_empty)
  = true.
Proof.
  destruct (transfer_needs_connection_and_every_file env_steps "solution" server_a
              (fun _ _ => true) sys_empty) as (t & E).
  - reflexivity.
  - rewrite E. reflexivity.
Defined.
